(** * Reconciliation engine of the mail-to-spreadsheet bot

    A shallow embedding of the decision logic of the repository
    (thread assembly, reply search, row matching, row update, retry
    policy, error counters) together with the properties its
    specification states about it. *)

From stdpp Require Import gmap strings list pretty.
From Stdlib Require Import Ascii QArith.

Local Close Scope Q_scope.
Local Open Scope string_scope.
Local Open Scope list_scope.

(** ** Text

    A Python [str] is embedded as a Rocq [string]; a character stands for
    the code point of the same number, so the embedding covers the code
    points below 256.  [str.isspace], [str.lower] and the regular
    expression class [\s] are the restrictions of Python's to that
    range. *)

Module Text.

Definition code (c : ascii) : N := N_of_ascii c.

Definition between (lo hi n : N) : bool := (lo <=? n)%N && (n <=? hi)%N.

(** [str.isspace] on one character: TAB..CR, FS..US, SPACE, NEL, NBSP. *)
Definition is_space (c : ascii) : bool :=
  between 9 13 (code c) || between 28 32 (code c)
  || (code c =? 133)%N || (code c =? 160)%N.

(** [str.lower] on one character: A..Z and the capital letters
    U+00C0..U+00DE except the multiplication sign U+00D7. *)
Definition char_lower (c : ascii) : ascii :=
  if between 65 90 (code c) || between 192 214 (code c)
     || between 216 222 (code c)
  then ascii_of_N (code c + 32)
  else c.

Fixpoint lower (s : string) : string :=
  match s with
  | "" => ""
  | String c r => String (char_lower c) (lower r)
  end.

Fixpoint lstrip (s : string) : string :=
  match s with
  | "" => ""
  | String c r => if is_space c then lstrip r else s
  end.

Definition is_empty (s : string) : bool :=
  match s with "" => true | _ => false end.

Fixpoint rstrip (s : string) : string :=
  match s with
  | "" => ""
  | String c r =>
      let r' := rstrip r in
      if is_space c && is_empty r' then "" else String c r'
  end.

(** [s.strip()] *)
Definition strip (s : string) : string := rstrip (lstrip s).

(** A string that does not start with white space. *)
Definition head_ok (s : string) : bool :=
  match s with "" => true | String c _ => negb (is_space c) end.

(** Truth value of a [str]: non-empty. *)
Definition truthy (s : string) : bool := negb (is_empty s).

End Text.

(** ** Subject normalisation ([IMAPHandler._normalize_subject]) *)

Module Subject.
Import Text.

(** The alternatives of the group [(?:Re|Fwd|Fw|FW|Forward)], in the
    order the pattern lists them. *)
Definition markers : list string := ["Re"; "Fwd"; "Fw"; "FW"; "Forward"].

(** One pattern character against one subject character under
    [re.IGNORECASE]. *)
Definition ci_eq (p c : ascii) : bool :=
  bool_decide (char_lower p = char_lower c).

(** A literal matched case-insensitively at the head of [s]; the result
    is what follows the match. *)
Fixpoint match_literal (pat s : string) : option string :=
  match pat with
  | "" => Some s
  | String p pat' =>
      match s with
      | "" => None
      | String c s' => if ci_eq p c then match_literal pat' s' else None
      end
  end.

(** [^(?:Re|Fwd|Fw|FW|Forward):] : the first alternative that is
    followed by a colon wins. *)
Fixpoint match_marker (alts : list string) (s : string) : option string :=
  match alts with
  | [] => None
  | a :: alts' =>
      match match_literal (a ++ ":") s with
      | Some rest => Some rest
      | None => match_marker alts' s
      end
  end.

(** [re.sub(r'^(?:Re|Fwd|Fw|FW|Forward):\s*', '', subject,
    flags=re.IGNORECASE)]: the pattern is anchored, so it matches at most
    once, at position 0; the greedy [\s*] takes all the white space that
    follows the colon. *)
Definition strip_marker (subject : string) : string :=
  match match_marker markers subject with
  | Some rest => lstrip rest
  | None => subject
  end.

Definition _normalize_subject (subject : string) : string :=
  let clean := strip_marker subject in
  lower (strip clean).

Definition has_marker (s : string) : bool :=
  bool_decide (is_Some (match_marker markers s)).

End Subject.

(** ** Exceptions and results

    A call either returns a value or raises; [Raise] carries the exception
    object.  Every exception below is an instance of [Exception], so every
    [except Exception] clause of the program catches it.  An exception
    object is true in a condition unless its class defines [__bool__] or
    [__len__] otherwise; [FalsyError] stands for an instance of such a
    class, which a wrapped function is free to raise. *)

Inductive exn : Type :=
  | KeyError (key : string)
  | NameError (name : string)
  | RuntimeError (msg : string)
  | IndexError
  | LabelError (label : Z)
  | ExternalError (what : string)
  | FalsyError (what : string).

Inductive result (A : Type) : Type :=
  | Ok (a : A)
  | Raise (e : exn).
Arguments Ok {A} a.
Arguments Raise {A} e.

#[global] Instance exn_eq_dec : EqDecision exn.
Proof. solve_decision. Defined.

(** ** Exceptions of further classes

    [ValueError], [AttributeError], [TypeError], [OverflowError] and
    [re.error] are instances of [Exception] like the others; they are
    carried by [ExternalError] with the name of their class. *)

Module Exceptions.

Definition ValueError (msg : string) : exn :=
  ExternalError ("ValueError: " +:+ msg).
Definition AttributeError : exn := ExternalError "AttributeError".
Definition TypeError : exn := ExternalError "TypeError".
Definition OverflowError (msg : string) : exn :=
  ExternalError ("OverflowError: " +:+ msg).
Definition re_error (msg : string) : exn :=
  ExternalError ("re.error: " +:+ msg).

(** The truth value of an exception object, as [if last_exception:]
    takes it. *)
Definition exn_truthy (e : exn) : bool :=
  match e with
  | FalsyError _ => false
  | _ => true
  end.

End Exceptions.

(** ** Counters ([ProcessingStats])

    The integer counters and the error map of the dataclass; the clock
    values, the timing averages and the history list play no part in the
    logic below and are left out. *)

Module Stats.

Record ProcessingStats : Type := mkStats {
  emails_processed : Z;
  replies_found : Z;
  emails_matched : Z;
  lm_studio_calls : Z;
  lm_studio_errors : Z;
  excel_updates : Z;
  errors : gmap string Z
}.

(** The [default_factory] of [errors]. *)
Definition default_errors : gmap string Z :=
  <["imap" := 0%Z]> (<["lm_studio" := 0%Z]> (<["excel" := 0%Z]>
    (<["search" := 0%Z]> (<["processing" := 0%Z]> ∅)))).

(** [ProcessingStats()] *)
Definition new_stats : ProcessingStats :=
  mkStats 0 0 0 0 0 0 default_errors.

Definition set_errors (st : ProcessingStats) (e : gmap string Z) :=
  mkStats (emails_processed st) (replies_found st) (emails_matched st)
          (lm_studio_calls st) (lm_studio_errors st) (excel_updates st) e.

Definition set_replies_found (st : ProcessingStats) (n : Z) :=
  mkStats (emails_processed st) n (emails_matched st)
          (lm_studio_calls st) (lm_studio_errors st) (excel_updates st)
          (errors st).

Definition set_excel_updates (st : ProcessingStats) (n : Z) :=
  mkStats (emails_processed st) (replies_found st) (emails_matched st)
          (lm_studio_calls st) (lm_studio_errors st) n (errors st).

(** [stats.errors[key] += 1]: the read of [errors[key]] comes first and
    raises [KeyError] when the key is absent. *)
Definition errors_incr (key : string) (st : ProcessingStats)
  : result ProcessingStats :=
  match errors st !! key with
  | Some n => Ok (set_errors st (<[key := (n + 1)%Z]> (errors st)))
  | None => Raise (KeyError key)
  end.

(** The handler shared by the [except Exception as e:] clauses that
    count and re-raise:
    [logger.error(...); stats.errors[key] += 1; raise].
    The result is the exception that leaves the clause and the counters
    after it. *)
Definition count_and_reraise (key : string) (e : exn) (st : ProcessingStats)
  : exn * ProcessingStats :=
  match errors_incr key st with
  | Ok st' => (e, st')
  | Raise e' => (e', st)
  end.

End Stats.

(** ** Retry policy ([retry_with_backoff])

    The wrapped function acts on a world [W]; the sleeps that took place
    are recorded as the list of their durations, in order.  Delays are
    rationals: doubling a binary floating-point delay is exact, and a
    delay that has overflowed is beyond what [time.sleep] accepts. *)

Module Retry.
Import Exceptions.

(** The longest duration, in seconds, that the interpreter converts to
    its clock, a 64-bit count of nanoseconds. *)
Definition sleep_limit : Q := (9223372036854775807 # 1000000000)%Q.

(** [time.sleep(secs)]: a negative duration is refused with [ValueError]
    and one beyond the clock with [OverflowError]; otherwise the call
    returns after the sleep. *)
Definition time_sleep (secs : Q) : result unit :=
  if negb (Qle_bool 0 secs)
  then Raise (ValueError "sleep length must be non-negative")
  else if negb (Qle_bool secs sleep_limit)
  then Raise (OverflowError "timestamp too large to convert to C _PyTime_t")
  else Ok ().

Definition accepted (secs : Q) : Prop := time_sleep secs = Ok ().

Section Wrapper.
Context {W A : Type}.
Variable attempts : Z.
Variable delay : Q.
Variable func : W → result A * W.

(** The [for attempt in range(attempts)] loop; [range] is what is left
    of [range(attempts)].  [time.sleep] is called inside the [except]
    clause, so an exception of its own leaves the wrapper at once.  After
    the loop [if last_exception: raise last_exception] tests the truth
    value of the exception object; the result [Ok None] is the
    fall-through [return None] of a Python function body. *)
Fixpoint wrapper_loop (range : list Z) (retry_delay : Q)
    (last_exception : option exn) (w : W) (sleeps : list Q)
  : result (option A) * W * list Q :=
  match range with
  | [] =>
      match last_exception with
      | Some e =>
          if exn_truthy e then (Raise e, w, sleeps) else (Ok None, w, sleeps)
      | None => (Ok None, w, sleeps)
      end
  | attempt :: range' =>
      match func w with
      | (Ok v, w') => (Ok (Some v), w', sleeps)
      | (Raise e, w') =>
          if bool_decide (attempt < attempts - 1)%Z
          then
            match time_sleep retry_delay with
            | Ok _ =>
                wrapper_loop range' (retry_delay * 2)%Q (Some e) w'
                             (sleeps ++ [retry_delay])
            | Raise e' => (Raise e', w', sleeps)
            end
          else wrapper_loop range' retry_delay (Some e) w' sleeps
      end
  end.

Definition wrapper (w : W) : result (option A) * W * list Q :=
  wrapper_loop (seqZ 0 attempts) delay None w [].

(** Observers used to state the properties: the world after [k] calls
    of [func], and the outcome of call number [k + 1]. *)
Fixpoint world_after (k : nat) (w : W) : W :=
  match k with
  | O => w
  | S k' => world_after k' (snd (func w))
  end.

Definition outcome_at (k : nat) (w : W) : result A :=
  fst (func (world_after k w)).

Definition fails_at (k : nat) (w : W) : Prop :=
  ∃ e, outcome_at k w = Raise e.

End Wrapper.

(** [d, 2d, 4d, ...]: [k] delays, each twice the one before. *)
Fixpoint backoff (k : nat) (d : Q) : list Q :=
  match k with
  | O => []
  | S k' => d :: backoff k' (d * 2)%Q
  end.


Definition retry_with_backoff {W A} (attempts : Z) (delay : Q)
    (func : W → result A * W) : W → result (option A) * W * list Q :=
  wrapper attempts delay func.

End Retry.

(** ** Mail handler ([IMAPHandler]) *)

Module Imap.
Import Stats Subject.

(** The dict built by [_fetch_email_data]. *)
Record Message : Type := mkMessage {
  message_id : string;
  subject : string;
  from : string;
  date : string;
  body : string;
  processed : bool
}.

(** A thread dict: ['subject'] and ['messages']; ['context'] is created
    empty and never written. *)
Record Thread : Type := mkThread {
  thread_subject : string;
  messages : list Message
}.

(** The mail server as the handler sees it: the outcome of each
    [imaplib] call.  [srv_search] gives the identifiers
    [message_numbers[0].split()] (empty when [message_numbers[0]] is
    empty); [srv_fetch] gives the message parsed from the fetched
    bytes. *)
Record Server : Type := mkServer {
  srv_open : result unit;
  srv_login : result unit;
  srv_select : result unit;
  srv_search : string → result (list string);
  srv_fetch : string → result Message;
  srv_store : string → result unit
}.

(** Handler state: whether [self.conn] is set, and the counters. *)
Record Handler : Type := mkHandler {
  conn : bool;
  stats : ProcessingStats
}.

Section WithServer.
Variable srv : Server.

(** Lines 63-81 of [_connect]: a failure while closing the old
    connection is swallowed; [self.conn] is assigned as soon as the
    SSL connection exists. *)
Definition connect_steps (h : Handler) : result unit * Handler :=
  match srv_open srv with
  | Raise e => (Raise e, h)
  | Ok _ =>
      let h' := mkHandler true (stats h) in
      match srv_login srv with
      | Raise e => (Raise e, h')
      | Ok _ =>
          match srv_select srv with
          | Raise e => (Raise e, h')
          | Ok _ => (Ok (), h')
          end
      end
  end.

Definition _connect (h : Handler) : result unit * Handler :=
  match connect_steps h with
  | (Ok _, h') => (Ok (), h')
  | (Raise e, h') =>
      let '(e', st') := count_and_reraise "imap_connect" e (stats h') in
      (Raise e', mkHandler (conn h') st')
  end.

(** [if self.conn is None: self._connect()] *)
Definition ensure_connected (h : Handler) : result unit * Handler :=
  if conn h then (Ok (), h) else _connect h.

(** The body of [search], without its decorator. *)
Definition search_body (criteria : string) (h : Handler)
  : result (list string) * Handler :=
  let try_block :=
    match ensure_connected h with
    | (Raise e, h') => (Raise e, h')
    | (Ok _, h') => (srv_search srv criteria, h')
    end in
  match try_block with
  | (Ok ids, h') => (Ok ids, h')
  | (Raise e, h') =>
      let '(e', st') := count_and_reraise "imap_search" e (stats h') in
      (Raise e', mkHandler (conn h') st')
  end.

(** [@retry_with_backoff(attempts=3, delay=1.0) def search] *)
Definition search (criteria : string) (h : Handler) :=
  Retry.retry_with_backoff 3%Z 1%Q (search_body criteria) h.

Definition _fetch_email_data (msg_id : string) (h : Handler)
  : result Message * Handler :=
  match srv_fetch srv msg_id with
  | Ok m => (Ok m, h)
  | Raise e =>
      let '(e', st') := count_and_reraise "imap_fetch" e (stats h) in
      (Raise e', mkHandler (conn h) st')
  end.

(** The body of [mark_as_read], without its decorator. *)
Definition mark_as_read_body (message_id : string) (h : Handler)
  : result unit * Handler :=
  let try_block :=
    match ensure_connected h with
    | (Raise e, h') => (Raise e, h')
    | (Ok _, h') => (srv_store srv message_id, h')
    end in
  match try_block with
  | (Ok _, h') => (Ok (), h')
  | (Raise e, h') =>
      let '(e', st') := count_and_reraise "imap_mark" e (stats h') in
      (Raise e', mkHandler (conn h') st')
  end.

(** [@retry_with_backoff(attempts=3, delay=1.0) def mark_as_read] *)
Definition mark_as_read (message_id : string) (h : Handler) :=
  Retry.retry_with_backoff 3%Z 1%Q (mark_as_read_body message_id) h.

Definition _is_same_thread (thread : Thread) (email_data : Message) : bool :=
  bool_decide (_normalize_subject (thread_subject thread)
               = _normalize_subject (subject email_data)).

(** Lines 231-240: what one fetched message does to [threads] and
    [current_thread]. *)
Definition place_message (threads : list Thread)
    (current_thread : option Thread) (email_data : Message)
  : list Thread * option Thread :=
  let '(threads, thread) :=
    match current_thread with
    | None => (threads, mkThread (subject email_data) [])
    | Some cur =>
        if negb (_is_same_thread cur email_data)
        then (threads ++ [cur], mkThread (subject email_data) [])
        else (threads, cur)
    end in
  (threads,
   Some (mkThread (thread_subject thread) (messages thread ++ [email_data]))).

(** Lines 226-245: the loop over the message identifiers.  A message
    whose fetch raises is counted under ['processing'] and skipped; an
    exception raised by that count leaves the loop. *)
Fixpoint threads_loop (message_ids : list string) (threads : list Thread)
    (current_thread : option Thread) (h : Handler)
  : result (list Thread * option Thread) * Handler :=
  match message_ids with
  | [] => (Ok (threads, current_thread), h)
  | msg_id :: ids' =>
      match _fetch_email_data msg_id h with
      | (Ok email_data, h') =>
          let '(threads', current') :=
            place_message threads current_thread email_data in
          threads_loop ids' threads' current' h'
      | (Raise _, h') =>
          match errors_incr "processing" (stats h') with
          | Ok st' => threads_loop ids' threads current_thread
                                   (mkHandler (conn h') st')
          | Raise e' => (Raise e', h')
          end
      end
  end.

(** Lines 222-252 of [get_email_threads]: from the identifiers found by
    the search to the returned list of threads. *)
Definition assemble_threads (message_ids : list string) (h : Handler)
  : result (list Thread) * Handler :=
  match threads_loop message_ids [] None h with
  | (Raise e, h') => (Raise e, h')
  | (Ok (threads, current_thread), h') =>
      match current_thread with
      | Some cur => (Ok (threads ++ [cur]), h')
      | None => (Ok threads, h')
      end
  end.

End WithServer.

Definition thread_norm (t : Thread) : string :=
  _normalize_subject (thread_subject t).

(** Adjacent emitted threads have different normalised subjects. *)
Definition adjacent_differ (ths : list Thread) : Prop :=
  ∀ i t1 t2, ths !! i = Some t1 → ths !! S i = Some t2 →
             thread_norm t1 ≠ thread_norm t2.

(** [current_thread] as the list of threads it stands for. *)
Definition open_thread (current_thread : option Thread) : list Thread :=
  match current_thread with Some t => [t] | None => [] end.

(** The fetched messages placed one after the other. *)
Definition place_all (msgs : list Message)
    (st : list Thread * option Thread) : list Thread * option Thread :=
  foldl (λ st m, place_message st.1 st.2 m) st msgs.

(** A well-formed emitted thread: not empty, keyed by the subject of its
    first message, all members sharing its normalised subject. *)
Definition thread_ok (t : Thread) : Prop :=
  (∃ m ms, messages t = m :: ms ∧ thread_subject t = subject m)
  ∧ Forall (λ m, _normalize_subject (subject m) = thread_norm t) (messages t).

(** The invariant of the loop: the emitted threads followed by the open
    one split the messages seen so far into maximal runs. *)
Definition runs_of (seen : list Message) (st : list Thread * option Thread)
  : Prop :=
  let all := st.1 ++ open_thread st.2 in
  concat (messages <$> all) = seen
  ∧ Forall thread_ok all
  ∧ adjacent_differ all
  ∧ (st.2 = None → st.1 = []).

End Imap.

(** ** Reply search ([EmailSearchStrategy]) *)

Module Search.
Import Text Stats.

(** The names bound at module level in [search.py]: those of its four
    [import] lines and the class itself. *)
Definition module_globals : list string :=
  ["Optional"; "Dict"; "Callable"; "logging"; "datetime"; "timezone";
   "parsedate_to_datetime"; "EmailSearchStrategy"].

(** Evaluating a global name: [NameError] when it is not bound. *)
Definition global (name : string) : result unit :=
  if bool_decide (name ∈ module_globals) then Ok ()
  else Raise (NameError name).

(** The [sent_item] dict, with the keys the strategies read. *)
Record SentItem : Type := mkSentItem {
  message_id : string;
  references_chain : list string;
  date : string;
  to : string;
  normalized_subject : string
}.

(** A found message: the items of the dict; an empty dict is falsy. *)
Definition Reply : Type := list (string * string).

(** [if result:] on an [Optional[Dict]]. *)
Definition truthy_reply (r : option Reply) : bool :=
  match r with
  | Some (_ :: _) => true
  | _ => false
  end.

(** ** The strategy loop ([find_reply_optimized])

    A strategy is a name and a thunk; the thunk acts on a world [W]. *)
Section Loop.
Context {W : Type}.

Definition Strategy : Type := string * (W → result (option Reply) * W).

Fixpoint find_reply_loop (strategies : list Strategy)
    (st : ProcessingStats) (w : W)
  : result (option Reply) * ProcessingStats * W :=
  match strategies with
  | [] => (Ok None, st, w)
  | (strategy_name, search_func) :: rest =>
      match search_func w with
      | (Ok res, w') =>
          if truthy_reply res
          then (Ok res, set_replies_found st (replies_found st + 1), w')
          else find_reply_loop rest st w'
      | (Raise e, w') =>
          match errors_incr "search" st with
          | Ok st' => find_reply_loop rest st' w'
          | Raise e' => (Raise e', st, w')
          end
      end
  end.

(** [tried pre w k w']: run in order from the world [w], every strategy
    of [pre] fails to produce a message, [k] of them by raising, and
    the world is then [w']. *)
Inductive tried : list Strategy → W → nat → W → Prop :=
  | tried_nil w : tried [] w 0 w
  | tried_raise name f e rest w w' k w'' :
      f w = (Raise e, w') → tried rest w' k w'' →
      tried ((name, f) :: rest) w (S k) w''
  | tried_miss name f res rest w w' k w'' :
      f w = (Ok res, w') → truthy_reply res = false →
      tried rest w' k w'' →
      tried ((name, f) :: rest) w k w''.

(** The counters after [k] caught failures, starting from the count
    [n] under ['search']. *)
Definition after_failures (k : nat) (n : Z) (st : ProcessingStats)
  : ProcessingStats :=
  set_errors st (<["search" := (n + Z.of_nat k)%Z]> (errors st)).

End Loop.

(** ** The three strategies

    The mailbox answers a [uid] command with [(typ, data[0])], or
    raises; the commands issued are logged in order. *)
Definition Command : Type := string * list (option string).

Definition is_bspace (c : ascii) : bool :=
  between 9 13 (code c) || (code c =? 32)%N.

Fixpoint bytes_lstrip (s : string) : string :=
  match s with
  | "" => ""
  | String c r => if is_bspace c then bytes_lstrip r else s
  end.

Fixpoint take_token (s : string) : string :=
  match s with
  | "" => ""
  | String c r => if is_bspace c then "" else String c (take_token r)
  end.

(** [data[0].split()[0]] on [bytes]. *)
Definition first_token (data0 : string) : result string :=
  match bytes_lstrip data0 with
  | "" => Raise IndexError
  | s => Ok (take_token s)
  end.

Section Strategies.
(** [self.mail.uid(command, *args)] *)
Variable mail_uid : Command → result (string * string).
(** [parsedate_to_datetime(d).astimezone(timezone.utc)
    .strftime("%d-%b-%Y")] *)
Variable parse_date : string → result string.
(** The same format applied to the current time minus [days] days. *)
Variable days_ago : Z → string.
(** [self._extract_message_fields(email.message_from_bytes(b))] *)
Variable extract_fields : string → result (option Reply).

Definition uid (cmd : Command) (log : list Command)
  : result (string * string) * list Command :=
  (mail_uid cmd, log ++ [cmd]).

(** Every exception inside is caught and turned into [None]; the name
    [email] is evaluated after the [typ] test. *)
Definition _fetch_and_parse_message (u : string) (log : list Command)
  : result (option Reply) * list Command :=
  match uid ("FETCH", [Some u; Some "(RFC822)"]) log with
  | (Raise _, log') => (Ok None, log')
  | (Ok (typ, msg_data), log') =>
      if negb (String.eqb typ "OK") then (Ok None, log')
      else
        match global "email" with
        | Raise _ => (Ok None, log')
        | Ok _ =>
            match extract_fields msg_data with
            | Raise _ => (Ok None, log')
            | Ok r => (Ok r, log')
            end
        end
  end.

(** [if typ == 'OK' and data[0]: return
    self._fetch_and_parse_message(data[0].split()[0])] ; [None] when
    the test fails. *)
Definition fetch_first (typ data0 : string) (log : list Command)
  : option (result (option Reply) * list Command) :=
  if String.eqb typ "OK" && truthy data0
  then Some (match first_token data0 with
             | Raise e => (Raise e, log)
             | Ok u => _fetch_and_parse_message u log
             end)
  else None.

Definition _search_by_message_id (sent_item : SentItem)
    (log : list Command) : result (option Reply) * list Command :=
  if negb (truthy (message_id sent_item)) then (Ok None, log)
  else
    match uid ("SEARCH", [None; Some "HEADER"; Some "In-Reply-To";
                          Some (message_id sent_item)]) log with
    | (Raise e, log') => (Raise e, log')
    | (Ok (typ, data0), log') =>
        match fetch_first typ data0 log' with
        | Some r => r
        | None => (Ok None, log')
        end
    end.

Fixpoint search_refs (refs : list string) (log : list Command)
  : result (option Reply) * list Command :=
  match refs with
  | [] => (Ok None, log)
  | ref :: refs' =>
      match uid ("SEARCH", [None; Some "HEADER"; Some "References";
                            Some ref]) log with
      | (Raise e, log') => (Raise e, log')
      | (Ok (typ, data0), log') =>
          match fetch_first typ data0 log' with
          | Some r => r
          | None => search_refs refs' log'
          end
      end
  end.

Definition _search_by_references (sent_item : SentItem)
    (log : list Command) : result (option Reply) * list Command :=
  search_refs (references_chain sent_item) log.

(** The [for subject_prefix in ['Re: ', '']] loop. *)
Fixpoint search_prefixes (prefixes : list string) (sent_item : SentItem)
    (search_date : string) (log : list Command)
  : result (option Reply) * list Command :=
  match prefixes with
  | [] => (Ok None, log)
  | subject_prefix :: prefixes' =>
      match uid ("SEARCH",
                 [None; Some "FROM"; Some (to sent_item);
                  Some "SINCE"; Some search_date;
                  Some "SUBJECT";
                  Some (subject_prefix ++ normalized_subject sent_item)%string])
                log with
      | (Raise e, log') => (Raise e, log')
      | (Ok (typ, data0), log') =>
          match fetch_first typ data0 log' with
          | Some r => r
          | None => search_prefixes prefixes' sent_item search_date log'
          end
      end
  end.

(** The date is parsed in a [try]; its [except Exception] clause
    evaluates [datetime.now(timezone.utc) - timedelta(days=14)], and an
    exception raised there leaves the method. *)
Definition _search_by_subject_and_from (sent_item : SentItem)
    (log : list Command) : result (option Reply) * list Command :=
  let parsed_date_utc :=
    match parse_date (date sent_item) with
    | Ok d => Ok d
    | Raise _ =>
        match global "datetime", global "timezone", global "timedelta" with
        | Ok _, Ok _, Ok _ => Ok (days_ago 14%Z)
        | Raise e, _, _ | Ok _, Raise e, _ | Ok _, Ok _, Raise e => Raise e
        end
    end in
  match parsed_date_utc with
  | Raise e => (Raise e, log)
  | Ok search_date =>
      search_prefixes ["Re: "; ""] sent_item search_date log
  end.

Definition search_strategies (sent_item : SentItem)
  : list (@Strategy (list Command)) :=
  [ ("message_id", _search_by_message_id sent_item);
    ("references", _search_by_references sent_item);
    ("subject_from", _search_by_subject_and_from sent_item) ].

Definition find_reply_optimized (sent_item : SentItem)
    (st : ProcessingStats) (log : list Command) :=
  find_reply_loop (search_strategies sent_item) st log.

End Strategies.

(** What C6 asks of the third strategy when the date does not parse:
    both searches are issued, in this order, with the anchor of fourteen
    days ago. *)
Definition fallback_commands (days_ago : Z → string) (sent_item : SentItem)
  : list Command :=
  [ ("SEARCH", [None; Some "FROM"; Some (to sent_item);
                Some "SINCE"; Some (days_ago 14%Z); Some "SUBJECT";
                Some ("Re: " ++ normalized_subject sent_item)%string]);
    ("SEARCH", [None; Some "FROM"; Some (to sent_item);
                Some "SINCE"; Some (days_ago 14%Z); Some "SUBJECT";
                Some (normalized_subject sent_item)]) ].

End Search.

(** ** Row store ([ExcelManager]) *)

Module Excel.
Import Text Stats Exceptions.

(** A Python value as it occurs in a cell or in an analysis result. *)
Inductive Value : Type :=
  | VStr (s : string)
  | VInt (z : Z)
  | VNone
  | VNaN.

(** The frame [self._df]: row labels and column names in order, and the
    cells that hold a value; a cell of the frame without an entry is
    [NaN], as after an enlargement. *)
Record DataFrame : Type := mkDF {
  df_index : list Z;
  df_columns : list string;
  df_cells : gmap (Z * string) Value
}.

Definition cell (df : DataFrame) (idx : Z) (col : string) : Value :=
  default VNaN (df_cells df !! (idx, col)).

(** [row[col]] for a row produced by [iterrows]. *)
Definition row_get (df : DataFrame) (idx : Z) (col : string) : result Value :=
  if bool_decide (col ∈ df_columns df) then Ok (cell df idx col)
  else Raise (KeyError col).

(** [df.at[idx, col]] read. *)
Definition at_get (df : DataFrame) (idx : Z) (col : string) : result Value :=
  if bool_decide (col ∈ df_columns df)
  then if bool_decide (idx ∈ df_index df) then Ok (cell df idx col)
       else Raise (LabelError idx)
  else Raise (KeyError col).

(** [df.at[idx, col] = v]: a label or a column that is not there yet is
    appended. *)
Definition at_set (df : DataFrame) (idx : Z) (col : string) (v : Value)
  : DataFrame :=
  mkDF (if bool_decide (idx ∈ df_index df) then df_index df
        else df_index df ++ [idx])
       (if bool_decide (col ∈ df_columns df) then df_columns df
        else df_columns df ++ [col])
       (<[(idx, col) := v]> (df_cells df)).

(** What the manager keeps of the configuration: [config['columns']]
    and [response_mail_column]. *)
Record Config : Type := mkConfig {
  columns : gmap string string;
  response_mail_column : string
}.

(** [self.mail_column].  [__init__] assigns [config], [file_path],
    [stats], [logger], [_df], [_modified], [column_mapping],
    [response_mail_column] and [target_columns]; no method assigns
    [mail_column] and the class has no attribute of that name, so reading
    it raises [AttributeError]. *)
Definition mail_column : result string := Raise AttributeError.

Record Manager : Type := mkManager {
  _df : option DataFrame;
  _modified : bool;
  stats : ProcessingStats
}.

(** The thread dict as [process_email_thread] reads it:
    [get('participants', [])] and the senders of [get('messages', [])],
    in thread order. *)
Record ThreadData : Type := mkThreadData {
  participants : list string;
  senders : list string
}.

(** Modelled from the spec: [ExcelManager._normalize_email] is called by
    the methods below and defined nowhere in the sources; the
    specification gives it as lowercasing and stripping the surrounding
    white space of an address. *)
Definition normalize_email (addr : string) : string := strip (lower addr).

(** [if value: ...] with the tests of a matching address. *)
Definition qualifies (addr original : string) (related : gset string) : bool :=
  truthy addr && (bool_decide (addr = original) || bool_decide (addr ∈ related)).

(** [if isinstance(value, str): value = value.strip()] *)
Definition trimmed (value : Value) : Value :=
  match value with
  | VStr s => VStr (strip s)
  | _ => value
  end.

Section WithConfig.
Variable cfg : Config.
(** The normaliser on a cell that does not hold text, about which the
    specification says nothing. *)
Variable normalize_nontext : Value → result string.

Definition _normalize_email (v : Value) : result string :=
  match v with
  | VStr s => Ok (normalize_email s)
  | _ => normalize_nontext v
  end.

(** The rest of one pass of the loop of [find_related_rows], from the
    column name that [self.mail_column] gave; [continue] is the loop on
    the rows that are left. *)
Definition scan_row (df : DataFrame) (idx : Z) (col : string)
    (original_email : string) (normalized_related : gset string)
    (results : list (Z * string))
    (continue : list (Z * string) → result (list (Z * string)))
  : result (list (Z * string)) :=
  match row_get df idx col with
  | Raise e => Raise e
  | Ok v =>
      match _normalize_email v with
      | Raise e => Raise e
      | Ok row_email =>
          if qualifies row_email original_email normalized_related
          then continue (results ++ [(idx, row_email)])
          else if bool_decide (response_mail_column cfg ∈ df_columns df)
          then
            match _normalize_email (cell df idx (response_mail_column cfg)) with
            | Raise e => Raise e
            | Ok response_email =>
                if qualifies response_email original_email normalized_related
                then continue (results ++ [(idx, response_email)])
                else continue results
            end
          else continue results
      end
  end.

(** The [for idx, row in self._df.iterrows()] loop.  Each pass begins by
    evaluating [row[self.mail_column]], and so by reading
    [self.mail_column]. *)
Fixpoint scan_rows (df : DataFrame) (labels : list Z)
    (original_email : string) (normalized_related : gset string)
    (results : list (Z * string)) : result (list (Z * string)) :=
  match labels with
  | [] => Ok results
  | idx :: labels' =>
      match mail_column with
      | Raise e => Raise e
      | Ok col =>
          scan_row df idx col original_email normalized_related results
                   (scan_rows df labels' original_email normalized_related)
      end
  end.

Definition find_related_rows (m : Manager) (original_email : string)
    (related_emails : gset string) : result (list (Z * string)) :=
  match _df m with
  | None => Raise (RuntimeError "Excel file not loaded")
  | Some df =>
      scan_rows df (df_index df) (normalize_email original_email)
                (set_map normalize_email related_emails) []
  end.

(** The [for key, value in data.items()] loop. *)
Fixpoint write_fields (data : list (string * Value)) (row_idx : Z)
    (df : DataFrame) : DataFrame :=
  match data with
  | [] => df
  | (key, value) :: data' =>
      match columns cfg !! key with
      | Some col =>
          write_fields data' row_idx (at_set df row_idx col (trimmed value))
      | None => write_fields data' row_idx df
      end
  end.

(** [if response_email: ...] after the field writes; the first step is
    [self._df.at[row_idx, self.mail_column]]. *)
Definition write_response (row_idx : Z) (response_email : option string)
    (df : DataFrame) : result unit * DataFrame :=
  match response_email with
  | None => (Ok (), df)
  | Some r =>
      if truthy r then
        match mail_column with
        | Raise e => (Raise e, df)
        | Ok col =>
            match at_get df row_idx col with
            | Raise e => (Raise e, df)
            | Ok original_email =>
                match _normalize_email original_email with
                | Raise e => (Raise e, df)
                | Ok n =>
                    if bool_decide (normalize_email r ≠ n)
                    then (Ok (),
                          at_set df row_idx (response_mail_column cfg) (VStr r))
                    else (Ok (), df)
                end
            end
        end
      else (Ok (), df)
  end.

(** The frame is changed in place, so what was written before an
    exception stays written. *)
Definition update_row_data (m : Manager) (row_idx : Z)
    (data : list (string * Value)) (response_email : option string)
  : result unit * Manager :=
  match _df m with
  | None => (Raise (RuntimeError "Excel file not loaded"), m)
  | Some df =>
      match write_response row_idx response_email
                           (write_fields data row_idx df) with
      | (Ok _, df') =>
          (Ok (),
           mkManager (Some df') true
             (set_excel_updates (stats m) (excel_updates (stats m) + 1)))
      | (Raise _, df') =>
          match errors_incr "excel" (stats m) with
          | Ok st' => (Ok (), mkManager (Some df') (_modified m) st')
          | Raise e' =>
              (Raise e', mkManager (Some df') (_modified m) (stats m))
          end
      end
  end.

(** The inner [for msg in thread_data.get('messages', [])] loop with
    its [break]. *)
Fixpoint select_response (froms : list string) (found_email : string)
  : option string :=
  match froms with
  | [] => None
  | msg_from :: froms' =>
      if bool_decide (normalize_email msg_from ≠ normalize_email found_email)
      then Some msg_from
      else select_response froms' found_email
  end.

(** The [for row_idx, found_email in related_rows] loop. *)
Fixpoint update_rows (related_rows : list (Z * string))
    (thread_data : ThreadData) (analysis_results : list (string * Value))
    (m : Manager) : result unit * Manager :=
  match related_rows with
  | [] => (Ok (), m)
  | (row_idx, found_email) :: rest =>
      let response_email :=
        select_response (senders thread_data) found_email in
      match update_row_data m row_idx analysis_results response_email with
      | (Ok _, m') => update_rows rest thread_data analysis_results m'
      | (Raise e, m') => (Raise e, m')
      end
  end.

Definition process_email_thread (m : Manager) (original_email : string)
    (thread_data : ThreadData) (analysis_results : list (string * Value))
  : result unit * Manager :=
  let all_emails : gset string := list_to_set (participants thread_data) in
  match find_related_rows m original_email all_emails with
  | Raise e => (Raise e, m)
  | Ok [] => (Ok (), m)
  | Ok related_rows =>
      update_rows related_rows thread_data analysis_results m
  end.

(** ** The same in the words of the specification *)

(** The value that the field writes leave in column [col]: that of the
    last field of [data] which the column map sends there. *)
Fixpoint last_write (data : list (string * Value)) (col : string)
    (acc : option Value) : option Value :=
  match data with
  | [] => acc
  | (key, value) :: data' =>
      if bool_decide (columns cfg !! key = Some col)
      then last_write data' col (Some (trimmed value))
      else last_write data' col acc
  end.

(** First-divergent-sender policy. *)
Definition first_divergent (froms : list string) (matched : string)
  : option string :=
  head (filter (λ a, normalize_email a ≠ matched) froms).

(** One update per candidate, all with the same analysis result. *)
Definition apply_to_all (related_rows : list (Z * string))
    (thread_data : ThreadData) (analysis_results : list (string * Value))
    (m : Manager) : result unit * Manager :=
  foldl (λ acc row,
           match acc with
           | (Raise e, m') => (Raise e, m')
           | (Ok _, m') =>
               update_row_data m' row.1 analysis_results
                 (first_divergent (senders thread_data) row.2)
           end)
        (Ok (), m) related_rows.

End WithConfig.

End Excel.

(** ** Sample inputs used by the examples *)

Module Samples.
Import Stats Search.

(** Four fetched messages with the subjects Offer, Offer, Other, Offer,
    and a server that delivers them. *)
Definition offers : list Imap.Message :=
  [ Imap.mkMessage "1" "Offer" "a@x.com" "d1" "b1" false;
    Imap.mkMessage "2" "Offer" "b@y.com" "d2" "b2" false;
    Imap.mkMessage "3" "Other" "a@x.com" "d3" "b3" false;
    Imap.mkMessage "4" "Offer" "b@y.com" "d4" "b4" false ].

Definition offers_server : Imap.Server :=
  Imap.mkServer (Ok ()) (Ok ()) (Ok ())
    (λ _, Ok ["1"; "2"; "3"; "4"])
    (λ id, match list_find (λ m, Imap.message_id m = id) offers with
           | Some (_, m) => Ok m
           | None => Raise (ExternalError "fetch")
           end)
    (λ _, Ok ()).

(** A server that refuses every request. *)
Definition down : Imap.Server :=
  Imap.mkServer (Raise (ExternalError "refused")) (Ok ()) (Ok ())
    (λ _, Raise (ExternalError "search"))
    (λ _, Raise (ExternalError "fetch"))
    (λ _, Raise (ExternalError "store")).

(** A function on a call counter that fails on its first two calls. *)
Definition flaky (calls : nat) : result nat * nat :=
  (if (calls <? 2)%nat then Raise (ExternalError "timeout") else Ok calls,
   S calls).

(** A function that fails on every call with an exception object that
    tests false. *)
Definition quiet_failure (calls : nat) : result nat * nat :=
  (Raise (FalsyError "Quiet"), S calls).

Definition found : Reply := [("subject", "Re: Offer"); ("from", "b@y.com")].

(** Strategies with a fixed outcome, on a world that counts the calls. *)
Definition raising : nat → result (option Reply) * nat :=
  λ calls, (Raise (ExternalError "search failed"), S calls).
Definition missing : nat → result (option Reply) * nat :=
  λ calls, (Ok None, S calls).
Definition hitting : nat → result (option Reply) * nat :=
  λ calls, (Ok (Some found), S calls).

Definition first_raises : list (@Strategy nat) :=
  [("message_id", raising); ("references", hitting);
   ("subject_from", missing)].

Definition second_raises : list (@Strategy nat) :=
  [("message_id", missing); ("references", raising);
   ("subject_from", hitting)].

(** A mailbox that answers every search with one identifier, a sent item
    whose date is not a date, and a date parser that rejects it. *)
Definition one_hit : Command → result (string * string) :=
  λ _, Ok ("OK", "7").

Definition undated : SentItem :=
  mkSentItem "" [] "not a date" "b@y.com" "offer".

Definition strict_dates : string → result string :=
  λ d, if String.eqb d "not a date" then Raise (ExternalError "ValueError")
       else Ok "01-Oct-2026".

Definition clock : Z → string := λ _, "20-Oct-2026".

Definition no_fields : string → result (option Reply) := λ _, Ok None.


Import Excel.

(** A two-row table as [load_excel] leaves it, and a column map. *)
Definition sheet : DataFrame :=
  mkDF [0; 1]%Z ["email"; "price_usd"]
    (<[(0%Z, "email") := VStr "a@x.com"]>
       (<[(1%Z, "email") := VStr "B@X.com"]>
          (<[(0%Z, "price_usd") := VStr ""]>
             (<[(1%Z, "price_usd") := VStr ""]> ∅)))).

Definition sheet_cfg : Config :=
  mkConfig (<["price_usd" := "Price USD"]> (<["comments" := "Comments"]> ∅))
           "response_email".

Definition loaded : Manager := mkManager (Some sheet) false new_stats.

Definition nontext_fails : Value → result string :=
  λ _, Raise (ExternalError "AttributeError").

Definition analysis : list (string * Value) :=
  [("price_usd", VStr " 120 "); ("vendor", VStr "ACME")].

Definition reply_from_other : string := "C@Z.com".

Definition talk : ThreadData :=
  mkThreadData ["a@x.com"; "b@y.com"] ["A@x.com"; "b@y.com"; "c@z.com"].

End Samples.

(** ** Further observers

    Notions used to state what the code does beyond the cases above. *)

Module Observe.
Import Text Stats.

(** Every character of [s] satisfies [p]. *)
Fixpoint all_chars (p : ascii → bool) (s : string) : bool :=
  match s with
  | "" => true
  | String c r => p c && all_chars p r
  end.

(** The messages whose fetch succeeds, in the order of the identifiers,
    and the number of identifiers whose fetch raises. *)
Definition fetched (srv : Imap.Server) (ids : list string) : list Imap.Message :=
  omap (λ id, match Imap.srv_fetch srv id with
              | Ok m => Some m
              | Raise _ => None
              end) ids.

Fixpoint fetch_failures (srv : Imap.Server) (ids : list string) : nat :=
  match ids with
  | [] => 0
  | id :: ids' =>
      match Imap.srv_fetch srv id with
      | Ok _ => fetch_failures srv ids'
      | Raise _ => S (fetch_failures srv ids')
      end
  end.

(** The search issued for one ancestor identifier, and the fetch of a
    message. *)
Definition references_command (ref : string) : Search.Command :=
  ("SEARCH", [None; Some "HEADER"; Some "References"; Some ref]).

Definition fetch_command (u : string) : Search.Command :=
  ("FETCH", [Some u; Some "(RFC822)"]).

(** An answer that passes [typ == 'OK' and data[0]]. *)
Definition is_hit (answer : result (string * string)) : bool :=
  match answer with
  | Ok (typ, data0) => String.eqb typ "OK" && truthy data0
  | Raise _ => false
  end.

(** A strategy outcome that carries no message. *)
Definition no_message {W} (r : result (option Search.Reply) * W) : Prop :=
  r.1 = Ok None ∨ ∃ e, r.1 = Raise e.

(** The markers of the subject pattern, in lower case. *)
Definition lower_markers : list string := ["re"; "fwd"; "fw"; "forward"].

End Observe.

(** ** Loading and saving the table ([load_excel], [save_excel]) *)

Module Loader.
Import Text Exceptions.

(** [s.replace(' ', '')] *)
Fixpoint drop_spaces (s : string) : string :=
  match s with
  | "" => ""
  | String c r =>
      if Ascii.eqb c " " then drop_spaces r else String c (drop_spaces r)
  end.

(** [s.lower().replace(' ', '')] *)
Definition squash (s : string) : string := drop_spaces (lower s).

(** The inner [for excel_col in df_headers.columns] loop with its
    [break]. *)
Fixpoint find_header (normalized_config : string) (headers : list string)
  : option string :=
  match headers with
  | [] => None
  | excel_col :: headers' =>
      if String.eqb (squash excel_col) normalized_config then Some excel_col
      else find_header normalized_config headers'
  end.

(** What one configured column resolves to: itself when it is a header,
    else the first header equal to it up to case and spaces. *)
Definition resolve (headers : list string) (config_col : string)
  : option string :=
  if bool_decide (config_col ∈ headers) then Some config_col
  else find_header (squash config_col) headers.

(** The loop of lines 66-82 over [self.column_mapping.items()]. *)
Fixpoint resolve_columns (items : list (string * string))
    (headers : list string) (real_columns : gmap string string)
  : gmap string string :=
  match items with
  | [] => real_columns
  | (config_name, config_col) :: items' =>
      match resolve headers config_col with
      | Some col =>
          resolve_columns items' headers (<[config_name := col]> real_columns)
      | None => resolve_columns items' headers real_columns
      end
  end.

(** Lines 65-85: the mapping of the configured names to real headers, or
    the [ValueError] raised when it is empty. *)
Definition mapped_columns (items : list (string * string))
    (headers : list string) : result (gmap string string) :=
  let real_columns := resolve_columns items headers ∅ in
  if bool_decide (real_columns = ∅)
  then Raise (ValueError "No matching columns found in Excel file")
  else Ok real_columns.

(** Two column names that differ in case and spaces only. *)
Definition same_column (a b : string) : Prop := squash a = squash b.

End Loader.

Module Saver.
Import Text Excel Exceptions Observe.

(** [self.file_path] and [config.get('backup', {}).get('enabled', False)]. *)
Record SaveConfig : Type := mkSaveConfig {
  file_path : string;
  backup_enabled : bool
}.

(** The files written, in order, each with the frame written to it. *)
Definition Disk : Type := list (string * DataFrame).

(** *** The extension test of the writer

    [to_excel] with [engine='openpyxl'] and a path given as a string
    begins with [check_extension(os.path.splitext(path)[-1])].

    [os.path.splitext] on a POSIX path, read from left to right: the
    extension starts at the last dot of the last component of the path,
    provided a character other than a dot comes before that dot in the
    component.  The state is whether such a character has been seen in
    the current component, and the extension the component has so far. *)
Definition ext_step (st : bool * option string) (c : ascii)
  : bool * option string :=
  if Ascii.eqb c "/" then (false, None)
  else if Ascii.eqb c "." then (st.1, if st.1 then Some "." else None)
  else (true, option_map (λ e, e +:+ String c "") st.2).

Fixpoint ext_scan (st : bool * option string) (path : string)
  : bool * option string :=
  match path with
  | "" => st
  | String c r => ext_scan (ext_step st c) r
  end.

Definition splitext_ext (path : string) : string :=
  default "" (ext_scan (false, None) path).2.

(** [a in b] for strings. *)
Fixpoint contains (b a : string) : bool :=
  String.prefix a b
  || match b with
     | "" => false
     | String _ r => contains r a
     end.

(** [check_extension]: the dot is dropped and the rest has to occur in
    one of the extensions of the engine, [.xlsx] and [.xlsm]. *)
Definition check_extension (ext : string) : result unit :=
  let ext := match ext with
             | String "." r => r
             | _ => ext
             end in
  if contains ".xlsx" ext || contains ".xlsm" ext then Ok ()
  else Raise (ValueError ("Invalid extension for engine 'openpyxl': '"
                          +:+ ext +:+ "'")).

(** The characters of a time stamp made with [%Y%m%d_%H%M%S]. *)
Definition is_stamp_char (c : ascii) : bool :=
  between 48 57 (code c) || Ascii.eqb c "_".

Section WithDisk.
Variable scfg : SaveConfig.
(** What [DataFrame.to_excel(path, index=False, engine='openpyxl')] does
    once the extension has been accepted. *)
Variable to_excel : string → DataFrame → result unit.
(** [datetime.now().strftime('%Y%m%d_%H%M%S')] *)
Variable stamp : string.

Definition backup_path : string :=
  file_path scfg +:+ "." +:+ stamp +:+ ".bak".

(** [self._df.to_excel(path, ...)] *)
Definition write_frame (path : string) (df : option DataFrame) (disk : Disk)
  : result unit * Disk :=
  match df with
  | None => (Raise AttributeError, disk)
  | Some d =>
      match check_extension (splitext_ext path) with
      | Raise e => (Raise e, disk)
      | Ok _ =>
          match to_excel path d with
          | Ok _ => (Ok (), disk ++ [(path, d)])
          | Raise e => (Raise e, disk)
          end
      end
  end.

Definition save_excel (m : Manager) (disk : Disk)
  : result unit * Manager * Disk :=
  if negb (_modified m) then (Ok (), m, disk)
  else
    let backup :=
      if backup_enabled scfg then write_frame backup_path (_df m) disk
      else (Ok (), disk) in
    match backup with
    | (Raise e, disk1) => (Raise e, m, disk1)
    | (Ok _, disk1) =>
        match write_frame (file_path scfg) (_df m) disk1 with
        | (Raise e, disk2) => (Raise e, m, disk2)
        | (Ok _, disk2) =>
            (Ok (), mkManager (_df m) false (stats m), disk2)
        end
    end.

End WithDisk.

End Saver.

(** ** Extraction client ([LMStudioClient]) *)

Module LMStudio.
Import Text Stats Exceptions.
Import Excel.

(** *** The two price patterns

    The fragment of regular expressions the patterns are written in, and
    the check that [re] makes when it compiles a pattern: the body of a
    look-behind must have one fixed width. *)
Inductive atom : Type :=
  | Chars (s : string)      (* literal characters *)
  | Spaces                  (* \s* *)
  | Digits.                 (* \d+ *)

Inductive item : Type :=
  | Plain (a : atom)
  | Group (a : atom)                (* ( ... ) *)
  | NotBehind (body : list atom).   (* (?<! ... ) *)

Definition nl : string := String (ascii_of_nat 10) "".

(** The pattern [casino \s* \n \s* price \s* \n \s* usd \s* \n \s* ( \d+ )],
    written here with blanks between its parts. *)
Definition casino_pattern : list item :=
  [Plain (Chars "casino"); Plain Spaces; Plain (Chars nl); Plain Spaces;
   Plain (Chars "price"); Plain Spaces; Plain (Chars nl); Plain Spaces;
   Plain (Chars "usd"); Plain Spaces; Plain (Chars nl); Plain Spaces;
   Group Digits].

(** The pattern [(?<! casino \s* \n \s* ) price \s* \n \s* usd \s* \n \s*
    ( \d+ )], written here with blanks between its parts. *)
Definition price_pattern : list item :=
  [NotBehind [Chars "casino"; Spaces; Chars nl; Spaces];
   Plain (Chars "price"); Plain Spaces; Plain (Chars nl); Plain Spaces;
   Plain (Chars "usd"); Plain Spaces; Plain (Chars nl); Plain Spaces;
   Group Digits].

(** Least and greatest width of what an atom matches; [None] is
    unbounded. *)
Definition atom_width (a : atom) : nat * option nat :=
  match a with
  | Chars s => (String.length s, Some (String.length s))
  | Spaces => (0%nat, None)
  | Digits => (1%nat, None)
  end.

Fixpoint body_width (body : list atom) : nat * option nat :=
  match body with
  | [] => (0%nat, Some 0%nat)
  | a :: body' =>
      let '(lo, hi) := atom_width a in
      let '(lo', hi') := body_width body' in
      ((lo + lo')%nat,
       match hi, hi' with
       | Some h, Some h' => Some (h + h')%nat
       | _, _ => None
       end)
  end.

Definition fixed_width (body : list atom) : bool :=
  let '(lo, hi) := body_width body in bool_decide (hi = Some lo).

(** Compiling a pattern. *)
Fixpoint compile (pattern : list item) : result unit :=
  match pattern with
  | [] => Ok ()
  | NotBehind body :: pattern' =>
      if fixed_width body then compile pattern'
      else Raise (re_error "look-behind requires fixed-width pattern")
  | _ :: pattern' => compile pattern'
  end.

(** *** Dicts of the analysis: items in order, one entry per key *)

Definition dict_has (k : string) (d : list (string * Value)) : bool :=
  bool_decide (k ∈ d.*1).

Fixpoint dict_get (k : string) (d : list (string * Value)) : option Value :=
  match d with
  | [] => None
  | (k', v) :: d' => if String.eqb k' k then Some v else dict_get k d'
  end.

(** [d[k] = v] *)
Fixpoint dict_set (k : string) (v : Value) (d : list (string * Value))
  : list (string * Value) :=
  match d with
  | [] => [(k, v)]
  | (k', v') :: d' =>
      if String.eqb k' k then (k, v) :: d' else (k', v') :: dict_set k v d'
  end.

(** [str(v)] *)
Definition py_str (v : Value) : string :=
  match v with
  | VStr s => s
  | VInt z => pretty z
  | VNone => "None"
  | VNaN => "nan"
  end.

(** Truth value of a Python value. *)
Definition py_truthy (v : Value) : bool :=
  match v with
  | VStr s => truthy s
  | VInt z => negb (z =? 0)%Z
  | VNone => false
  | VNaN => true
  end.

Definition is_digit (c : ascii) : bool := between 48 57 (code c).

(** [re.sub(r'[^\d]', '', s)] *)
Fixpoint digits_only (s : string) : string :=
  match s with
  | "" => ""
  | String c r => if is_digit c then String c (digits_only r) else digits_only r
  end.

(** [if field in parsed: parsed[field] = re.sub(r'[^\d]', '',
    str(parsed[field]))] *)
Definition clean_price (field : string) (parsed : list (string * Value))
  : list (string * Value) :=
  match dict_get field parsed with
  | Some v => dict_set field (VStr (digits_only (py_str v))) parsed
  | None => parsed
  end.

Definition required_fields : list string :=
  ["price_usd"; "price_usd_casino"; "important_info"; "comments"].

(** [for field in required_fields: if field not in parsed:
    parsed[field] = ''] *)
Fixpoint fill_required (fields : list string) (parsed : list (string * Value))
  : list (string * Value) :=
  match fields with
  | [] => parsed
  | field :: fields' =>
      fill_required fields'
        (if dict_has field parsed then parsed else dict_set field (VStr "") parsed)
  end.

(** *** Locating the JSON object in the answer *)

Fixpoint find_char (c : ascii) (s : string) : option nat :=
  match s with
  | "" => None
  | String c' r =>
      if Ascii.eqb c' c then Some 0%nat else S <$> find_char c r
  end.

Fixpoint rfind_char (c : ascii) (s : string) : option nat :=
  match s with
  | "" => None
  | String c' r =>
      match rfind_char c r with
      | Some i => Some (S i)
      | None => if Ascii.eqb c' c then Some 0%nat else None
      end
  end.

(** [s.find(c)] and [s.rfind(c)]: an index, or -1. *)
Definition py_find (c : ascii) (s : string) : Z :=
  match find_char c s with Some i => Z.of_nat i | None => (-1)%Z end.

Definition py_rfind (c : ascii) (s : string) : Z :=
  match rfind_char c s with Some i => Z.of_nat i | None => (-1)%Z end.

(** [s[start:end]] for indices that are not negative. *)
Definition slice (s : string) (start stop : Z) : string :=
  String.substring (Z.to_nat start) (Z.to_nat (stop - start)) s.

(** Lines 167-172. *)
Definition extract_json (content : string) : result string :=
  let start := py_find "{" content in
  let stop := (py_rfind "}" content + 1)%Z in
  if (start =? -1)%Z || (stop =? 0)%Z
  then Raise (ValueError "No JSON found in response")
  else Ok (slice content start stop).

(** *** The client

    Its counters and the prompts posted so far. *)
Record Client : Type := mkClient {
  stats : ProcessingStats;
  posted : list string
}.

Section WithService.
(** [re]'s matcher on a compiled pattern: group 1 of the first match. *)
Variable re_match : list item → string → option string.
(** Lines 141-162: the request, the status check and the content of the
    first choice; any failure there is an exception. *)
Variable api_content : string → result string.
(** [json.loads]; [None] stands for [JSONDecodeError]. *)
Variable json_loads : string → option (list (string * Value)).
(** [_create_prompt]: the fixed template with the message inserted. *)
Variable create_prompt : string → string.
(** [str(e)] *)
Variable exn_text : exn → string.

(** [re.search(pattern, text)], reduced to group 1. *)
Definition re_search (pattern : list item) (text : string)
  : result (option string) :=
  match compile pattern with
  | Raise e => Raise e
  | Ok _ => Ok (re_match pattern text)
  end.

Definition _extract_prices (text : string) : result (string * string) :=
  match re_search casino_pattern (lower text) with
  | Raise e => Raise e
  | Ok casino_match =>
      match re_search price_pattern (lower text) with
      | Raise e => Raise e
      | Ok price_match =>
          Ok (default "" price_match, default "" casino_match)
      end
  end.

(** The inner [try] of [_make_api_request]: only [JSONDecodeError] is
    caught there. *)
Definition parse_answer (content : string) (st : ProcessingStats)
  : result (option (list (string * Value))) * ProcessingStats :=
  match extract_json content with
  | Raise e => (Raise e, st)
  | Ok json_str =>
      match json_loads json_str with
      | None =>
          match errors_incr "json_parse" st with
          | Ok st' => (Ok None, st')
          | Raise e' => (Raise e', st)
          end
      | Some parsed =>
          (Ok (Some (fill_required required_fields
                       (clean_price "price_usd_casino"
                          (clean_price "price_usd" parsed)))),
           st)
      end
  end.

(** The body of [_make_api_request], without its decorator. *)
Definition request_body (prompt : string) (c : Client)
  : result (option (list (string * Value))) * Client :=
  let c1 := mkClient (stats c) (posted c ++ [prompt]) in
  let try_block :=
    match api_content prompt with
    | Raise e => (Raise e, stats c)
    | Ok content => parse_answer content (stats c)
    end in
  match try_block with
  | (Ok r, st') => (Ok r, mkClient st' (posted c1))
  | (Raise e, st') =>
      let '(e', st'') := count_and_reraise "api" e st' in
      (Raise e', mkClient st'' (posted c1))
  end.

(** [@retry_with_backoff(attempts=3, delay=1.0) def _make_api_request] *)
Definition _make_api_request (prompt : string) (c : Client) :=
  Retry.retry_with_backoff 3%Z 1%Q (request_body prompt) c.

(** The dict returned by the [except] clause of [analyze_email]. *)
Definition error_result (e : exn) : list (string * Value) :=
  [("error", VStr (exn_text e)); ("price_usd", VStr "");
   ("price_usd_casino", VStr ""); ("important_info", VStr "");
   ("comments", VStr "")].

(** The [try] block of [analyze_email]. *)
Definition analyze_try (email_text : string) (c : Client)
  : result (list (string * Value)) * Client * list Q :=
  match _extract_prices email_text with
  | Raise e => (Raise e, c, [])
  | Ok (price_usd, price_usd_casino) =>
      let prompt := create_prompt email_text in
      match _make_api_request prompt c with
      | (Raise e, c', sleeps) => (Raise e, c', sleeps)
      | (Ok (Some (Some result)), c', sleeps) =>
          let result :=
            if truthy price_usd then dict_set "price_usd" (VStr price_usd) result
            else result in
          let result :=
            if truthy price_usd_casino
            then dict_set "price_usd_casino" (VStr price_usd_casino) result
            else result in
          (Ok result, c', sleeps)
      | (Ok _, c', sleeps) =>
          (Raise (ValueError "Failed to analyze email"), c', sleeps)
      end
  end.

Definition analyze_email (email_text : string) (c : Client)
  : result (list (string * Value)) * Client * list Q :=
  let c0 :=
    mkClient (mkStats (emails_processed (stats c)) (replies_found (stats c))
                (emails_matched (stats c)) (lm_studio_calls (stats c) + 1)
                (lm_studio_errors (stats c)) (excel_updates (stats c))
                (errors (stats c)))
             (posted c) in
  match analyze_try email_text c0 with
  | (Ok result, c', sleeps) => (Ok result, c', sleeps)
  | (Raise e, c', sleeps) =>
      match errors_incr "analysis" (stats c') with
      | Ok st' => (Ok (error_result e), mkClient st' (posted c'), sleeps)
      | Raise e' => (Raise e', c', sleeps)
      end
  end.

End WithService.

End LMStudio.

(** ** The run ([IMAPHandler.get_email_threads], [main.process_emails])

    The three components share one [ProcessingStats] object; the state of
    a run holds it once, with the connection flag of the mail handler, the
    table of the row store, the prompts posted by the extraction client
    and the sleeps of the retry wrappers. *)

Module Run.
Import Text Stats Exceptions.

Record App : Type := mkApp {
  conn : bool;
  stats : ProcessingStats;
  df : option Excel.DataFrame;
  modified : bool;
  posted : list string;
  slept : list Q
}.

(** The filters of the mail handler: [self.days_back] and
    [self.subject_filters]. *)
Record Filters : Type := mkFilters {
  days_back : Z;
  subject_filters : list string
}.

Definition quote : string := String (ascii_of_nat 34) "".

Section WithWorld.
Variable srv : Imap.Server.
Variable filters : Filters.
(** [self._format_date(days)]: the date [days] days before now, as
    DD-Mon-YYYY. *)
Variable format_date : Z → string.
Variable cfg : Excel.Config.
Variable normalize_nontext : Excel.Value → result string.
Variable re_match : list LMStudio.item → string → option string.
Variable api_content : string → result string.
Variable json_loads : string → option (list (string * Excel.Value)).
Variable create_prompt : string → string.
Variable exn_text : exn → string.

Definition handler (a : App) : Imap.Handler := Imap.mkHandler (conn a) (stats a).
Definition manager (a : App) : Excel.Manager :=
  Excel.mkManager (df a) (modified a) (stats a).
Definition client (a : App) : LMStudio.Client :=
  LMStudio.mkClient (stats a) (posted a).

Definition with_handler (a : App) (h : Imap.Handler) (sleeps : list Q) : App :=
  mkApp (Imap.conn h) (Imap.stats h) (df a) (modified a) (posted a)
        (slept a ++ sleeps).
Definition with_manager (a : App) (m : Excel.Manager) : App :=
  mkApp (conn a) (Excel.stats m) (Excel._df m) (Excel._modified m) (posted a)
        (slept a).
Definition with_client (a : App) (c : LMStudio.Client) (sleeps : list Q) : App :=
  mkApp (conn a) (LMStudio.stats c) (df a) (modified a) (LMStudio.posted c)
        (slept a ++ sleeps).

(** Lines 199-219 of [get_email_threads]: the search expression. *)
Definition build_query : string :=
  let search_criteria :=
    if (0 <? days_back filters)%Z
    then ["SINCE " +:+ format_date (days_back filters)] else [] in
  let subject_terms :=
    (λ term, "SUBJECT " +:+ quote +:+ term +:+ quote) <$> subject_filters filters in
  let search_criteria :=
    match subject_terms with
    | [] => search_criteria
    | _ => search_criteria ++ ["(" +:+ String.concat " OR " subject_terms +:+ ")"]
    end in
  String.concat " " (search_criteria ++ ["UNSEEN"]).

Definition get_email_threads (h : Imap.Handler)
  : result (list Imap.Thread) * Imap.Handler * list Q :=
  let try_block :=
    match Imap.ensure_connected srv h with
    | (Raise e, h1) => (Raise e, h1, [])
    | (Ok _, h1) =>
        match Imap.search srv build_query h1 with
        | (Raise e, h2, sleeps) => (Raise e, h2, sleeps)
        | (Ok None, h2, sleeps) => (Raise TypeError, h2, sleeps)
        | (Ok (Some message_ids), h2, sleeps) =>
            let '(r, h3) := Imap.assemble_threads srv message_ids h2 in
            (r, h3, sleeps)
        end
    end in
  match try_block with
  | (Ok threads, h', sleeps) => (Ok threads, h', sleeps)
  | (Raise e, h', sleeps) =>
      let '(e', st') := count_and_reraise "imap_threads" e (Imap.stats h') in
      (Raise e', Imap.mkHandler (Imap.conn h') st', sleeps)
  end.

(** The thread dict as [process_email_thread] reads it: the assembler
    gives it no ['participants']. *)
Definition thread_data (thread : Imap.Thread) : Excel.ThreadData :=
  Excel.mkThreadData [] (Imap.from <$> Imap.messages thread).

(** [analysis.get('error')] as a condition. *)
Definition has_error (analysis : list (string * Excel.Value)) : bool :=
  match LMStudio.dict_get "error" analysis with
  | Some v => LMStudio.py_truthy v
  | None => false
  end.

(** The [for message in thread['messages']] loop of [process_emails]. *)
Fixpoint process_messages (messages : list Imap.Message) (thread : Imap.Thread)
    (a : App) : result unit * App :=
  match messages with
  | [] => (Ok (), a)
  | message :: messages' =>
      if Imap.processed message then process_messages messages' thread a
      else
        match LMStudio.analyze_email re_match api_content json_loads
                create_prompt exn_text (Imap.body message) (client a) with
        | (Raise e, c', sleeps) => (Raise e, with_client a c' sleeps)
        | (Ok analysis, c', sleeps) =>
            let a1 := with_client a c' sleeps in
            if has_error analysis then process_messages messages' thread a1
            else
              match Excel.process_email_thread cfg normalize_nontext
                      (manager a1) (Imap.from message) (thread_data thread)
                      analysis with
              | (Raise e, m') => (Raise e, with_manager a1 m')
              | (Ok _, m') =>
                  let a2 := with_manager a1 m' in
                  match Imap.mark_as_read srv (Imap.message_id message)
                          (handler a2) with
                  | (Raise e, h', sleeps') => (Raise e, with_handler a2 h' sleeps')
                  | (Ok _, h', sleeps') =>
                      process_messages messages' thread
                        (with_handler a2 h' sleeps')
                  end
              end
        end
  end.

(** The [for thread in ...] loop with its [try]: a thread that raises is
    counted under ['processing'] and the loop goes on. *)
Fixpoint process_threads (threads : list Imap.Thread) (a : App)
  : result unit * App :=
  match threads with
  | [] => (Ok (), a)
  | thread :: threads' =>
      match process_messages (Imap.messages thread) thread a with
      | (Ok _, a') => process_threads threads' a'
      | (Raise _, a') =>
          match errors_incr "processing" (stats a') with
          | Ok st' =>
              process_threads threads'
                (mkApp (conn a') st' (df a') (modified a') (posted a') (slept a'))
          | Raise e' => (Raise e', a')
          end
      end
  end.

Definition process_emails (a : App) : result unit * App :=
  let try_block :=
    match get_email_threads (handler a) with
    | (Raise e, h', sleeps) => (Raise e, with_handler a h' sleeps)
    | (Ok threads, h', sleeps) =>
        process_threads threads (with_handler a h' sleeps)
    end in
  match try_block with
  | (Ok _, a') => (Ok (), a')
  | (Raise e, a') =>
      let '(e', st') := count_and_reraise "processing" e (stats a') in
      (Raise e', mkApp (conn a') st' (df a') (modified a') (posted a') (slept a'))
  end.

End WithWorld.

(** The threads that still hold a message not marked processed. *)
Definition pending (thread : Imap.Thread) : bool :=
  existsb (λ m, negb (Imap.processed m)) (Imap.messages thread).

Definition pending_count (threads : list Imap.Thread) : nat :=
  length (filter (λ t, pending t = true) threads).

(** The counters after one more analysis call. *)
Definition counted_call (st : ProcessingStats) : ProcessingStats :=
  mkStats (emails_processed st) (replies_found st) (emails_matched st)
          (lm_studio_calls st + 1) (lm_studio_errors st) (excel_updates st)
          (errors st).

(** The counters after [calls] analysis calls and [failures] errors counted
    under ['processing'], which stood at [n]. *)
Definition after_run (st : ProcessingStats) (n : Z) (calls failures : nat)
  : ProcessingStats :=
  mkStats (emails_processed st) (replies_found st) (emails_matched st)
          (lm_studio_calls st + Z.of_nat calls) (lm_studio_errors st)
          (excel_updates st)
          (<["processing" := (n + Z.of_nat failures)%Z]> (errors st)).

End Run.

(** ** Further sample inputs *)

Module MoreSamples.
Import Observe.

(** A mailbox in which only the ancestor [<b>] is referenced, and a sent
    item whose chain is [<a>], [<b>], [<c>]. *)
Definition refs_mailbox : Search.Command → result (string * string) :=
  λ cmd, if bool_decide (cmd = references_command "<b>") then Ok ("OK", "7 9")
         else Ok ("OK", "").

Definition chained : Search.SentItem :=
  Search.mkSentItem "" ["<a>"; "<b>"; "<c>"] "not a date" "b@y.com" "offer".

Definition headers : list string := ["Email"; "Price USD"; "Notes"].

Definition mapping : list (string * string) :=
  [("email", "email"); ("price_usd", "Price USD"); ("comments", "Comments")].

(** The table file with backups enabled, and with backups disabled. *)
Definition save_cfg : Saver.SaveConfig := Saver.mkSaveConfig "table.xlsx" true.

Definition plain_cfg : Saver.SaveConfig :=
  Saver.mkSaveConfig "table.xlsx" false.

Definition writable : string → Excel.DataFrame → result unit := λ _ _, Ok ().

(** An answer of the service with text around the JSON object, and a
    parser that knows this one object. *)
Definition answer : string := "Here: {price_usd: 120 USD} done".

Definition knows_answer : string → option (list (string * Excel.Value)) :=
  λ js, if String.eqb js "{price_usd: 120 USD}"
        then Some [("price_usd", Excel.VStr "120 USD")]
        else None.

Definition no_match : list LMStudio.item → string → option string := λ _ _, None.

Definition echo_prompt : string → string := λ text, text.

(** The server of the four offers, on which the fetch of message 2
    fails, and a server that accepts the connection and refuses the
    login. *)
Definition lossy_server : Imap.Server :=
  Imap.mkServer (Ok ()) (Ok ()) (Ok ())
    (λ _, Ok ["1"; "2"; "3"; "4"])
    (λ id, if String.eqb id "2" then Raise (ExternalError "fetch")
           else Imap.srv_fetch Samples.offers_server id)
    (λ _, Ok ()).


Definition no_filters : Run.Filters := Run.mkFilters 0 [].

Definition today : Z → string := λ _, "03-Nov-2026".

(** A run that starts connected, with fresh counters and the loaded
    sheet. *)
Definition fresh_run : Run.App :=
  Run.mkApp true Stats.new_stats (Some Samples.sheet) false [] [].

Definition class_name : exn → string :=
  λ e, match e with
       | KeyError k => k
       | NameError n => n
       | RuntimeError msg => msg
       | IndexError => "IndexError"
       | LabelError _ => "KeyError"
       | ExternalError what => what
       | FalsyError what => what
       end.

End MoreSamples.

(** * Properties *)

Module TextFacts.
Import Text.

Ltac each_char c :=
  destruct c as [[] [] [] [] [] [] [] []]; vm_compute; try reflexivity.

Lemma char_lower_idem c : char_lower (char_lower c) = char_lower c.
Proof. each_char c. Qed.

Lemma is_space_char_lower c : is_space (char_lower c) = is_space c.
Proof. each_char c. Qed.

Lemma lower_idem s : lower (lower s) = lower s.
Proof. induction s as [|c r IH]; simpl; [done|]. by rewrite char_lower_idem, IH. Qed.

Lemma is_empty_lower s : is_empty (lower s) = is_empty s.
Proof. by destruct s. Qed.

Lemma lstrip_lower s : lstrip (lower s) = lower (lstrip s).
Proof.
  induction s as [|c r IH]; simpl; [done|].
  rewrite is_space_char_lower. by destruct (is_space c).
Qed.

Lemma rstrip_lower s : rstrip (lower s) = lower (rstrip s).
Proof.
  induction s as [|c r IH]; simpl; [done|].
  rewrite is_space_char_lower, IH, is_empty_lower.
  by destruct (is_space c && is_empty (rstrip r)).
Qed.

Lemma strip_lower s : strip (lower s) = lower (strip s).
Proof. unfold strip. by rewrite lstrip_lower, rstrip_lower. Qed.

Lemma lstrip_idem s : lstrip (lstrip s) = lstrip s.
Proof.
  induction s as [|c r IH]; simpl; [done|].
  destruct (is_space c) eqn:E; [done|]. simpl. by rewrite E.
Qed.

Lemma rstrip_idem s : rstrip (rstrip s) = rstrip s.
Proof.
  induction s as [|c r IH]; simpl; [done|].
  destruct (is_space c && is_empty (rstrip r)) eqn:E; [done|].
  simpl. by rewrite IH, E.
Qed.

Lemma head_ok_lstrip s : head_ok (lstrip s) = true.
Proof.
  induction s as [|c r IH]; simpl; [done|].
  destruct (is_space c) eqn:E; [done|]. simpl. by rewrite E.
Qed.

Lemma lstrip_head_ok s : head_ok s = true → lstrip s = s.
Proof. destruct s as [|c r]; simpl; [done|]. by destruct (is_space c). Qed.

Lemma head_ok_rstrip s : head_ok s = true → head_ok (rstrip s) = true.
Proof.
  destruct s as [|c r]; simpl; [done|].
  destruct (is_space c) eqn:E; [done|]. simpl. by rewrite E.
Qed.

Lemma strip_idem s : strip (strip s) = strip s.
Proof.
  unfold strip.
  rewrite (lstrip_head_ok (rstrip (lstrip s))).
  - apply rstrip_idem.
  - apply head_ok_rstrip, head_ok_lstrip.
Qed.

Lemma length_lower s : String.length (lower s) = String.length s.
Proof. induction s; simpl; congruence. Qed.

Lemma length_lstrip s : (String.length (lstrip s) <= String.length s)%nat.
Proof.
  induction s as [|c r IH]; simpl; [done|].
  destruct (is_space c); simpl; lia.
Qed.

Lemma length_rstrip s : (String.length (rstrip s) <= String.length s)%nat.
Proof.
  induction s as [|c r IH]; simpl; [done|].
  destruct (is_space c && is_empty (rstrip r)); simpl; lia.
Qed.

Lemma length_strip s : (String.length (strip s) <= String.length s)%nat.
Proof.
  unfold strip. etrans; [apply length_rstrip|apply length_lstrip].
Qed.

End TextFacts.

Module SubjectFacts.
Import Text TextFacts Subject.

Lemma length_append (a b : string) :
  String.length (a ++ b) = (String.length a + String.length b)%nat.
Proof. induction a as [|c a IH]; simpl; [done|]. by rewrite IH. Qed.

Lemma match_literal_length pat s rest :
  match_literal pat s = Some rest →
  String.length s = (String.length pat + String.length rest)%nat.
Proof.
  revert s. induction pat as [|p pat IH]; intros s H; simpl in *.
  - by inversion H.
  - destruct s as [|c s]; [done|].
    destruct (ci_eq p c); [|done]. simpl. f_equal. by apply IH.
Qed.

Lemma match_marker_shorter alts s rest :
  match_marker alts s = Some rest →
  (String.length rest < String.length s)%nat.
Proof.
  induction alts as [|a alts IH]; simpl; [done|].
  destruct (match_literal (a ++ ":") s) as [r|] eqn:E; [|done].
  intros [= ->]. apply match_literal_length in E.
  rewrite length_append in E. simpl in E. lia.
Qed.

Lemma length_normalize_marked s rest :
  match_marker markers s = Some rest →
  (String.length (_normalize_subject s) < String.length s)%nat.
Proof.
  intros H. unfold _normalize_subject, strip_marker. rewrite H.
  rewrite length_lower.
  pose proof (length_strip (lstrip rest)).
  pose proof (length_lstrip rest).
  pose proof (match_marker_shorter _ _ _ H). lia.
Qed.

Lemma normalize_unmarked s :
  match_marker markers s = None → _normalize_subject s = lower (strip s).
Proof. intros H. unfold _normalize_subject, strip_marker. by rewrite H. Qed.

Lemma lower_strip_idem s : lower (strip (lower (strip s))) = lower (strip s).
Proof. by rewrite strip_lower, lower_idem, strip_idem. Qed.

(** C4, as stated, fails: a subject with two markers loses one at each
    pass. *)
Lemma normalize_subject_twice_differs :
  _normalize_subject (_normalize_subject "Re: Re: hello")
  ≠ _normalize_subject "Re: Re: hello".
Proof. vm_compute. discriminate. Qed.

(** C4, amended: each pass strips one leading marker with the white
    space after it, then the outer white space, and lowercases.
    Normalising twice gives the same as normalising once exactly when
    the result of the first pass does not itself begin with a
    reply/forward marker.  So [Re: hello] and [hello] give [hello] after
    one pass and after two, while [Re: Re: hello] gives [re: hello] and
    then [hello], and so does [ Re: hello], whose marker the first pass
    leaves in place because of the blank before it. *)
Theorem normalize_subject_idempotent_iff (s : string) :
  (_normalize_subject (_normalize_subject s) = _normalize_subject s
   ↔ has_marker (_normalize_subject s) = false)
  ∧ (match_marker markers s = None → _normalize_subject s = lower (strip s))
  ∧ (∀ rest, match_marker markers s = Some rest →
             _normalize_subject s = lower (strip (lstrip rest)))
  ∧ (_normalize_subject "Re: hello" = "hello"
     ∧ _normalize_subject "hello" = "hello")
  ∧ (_normalize_subject "Re: Re: hello" = "re: hello"
     ∧ _normalize_subject " Re: hello" = "re: hello"
     ∧ _normalize_subject "re: hello" = "hello").
Proof.
  split_and!; try reflexivity.
  - unfold has_marker. split.
    + intros Heq. apply bool_decide_eq_false. intros [rest Hrest].
      apply length_normalize_marked in Hrest. rewrite Heq in Hrest. lia.
    + intros Hno. apply bool_decide_eq_false in Hno.
      destruct (match_marker markers (_normalize_subject s)) as [rest|] eqn:E.
      * exfalso. apply Hno. by eexists.
      * rewrite (normalize_unmarked _ E).
        unfold _normalize_subject at 1 2. apply lower_strip_idem.
  - apply normalize_unmarked.
  - intros rest H. unfold _normalize_subject, strip_marker. by rewrite H.
Qed.

End SubjectFacts.

Module ImapFacts.
Import Stats Subject Imap Samples.

Lemma place_message_cases threads cur m :
  place_message threads cur m =
  match cur with
  | Some t =>
      if bool_decide (_normalize_subject (subject m) = thread_norm t)
      then (threads, Some (mkThread (thread_subject t) (messages t ++ [m])))
      else (threads ++ [t], Some (mkThread (subject m) [m]))
  | None => (threads, Some (mkThread (subject m) [m]))
  end.
Proof.
  unfold place_message, _is_same_thread, thread_norm.
  destruct cur as [t|]; [|done].
  destruct (decide (_normalize_subject (thread_subject t)
                    = _normalize_subject (subject m))) as [E|E].
  - rewrite (bool_decide_eq_true_2 _ E).
    by rewrite (bool_decide_eq_true_2 _ (eq_sym E)).
  - rewrite (bool_decide_eq_false_2 _ E).
    rewrite bool_decide_eq_false_2; [done|congruence].
Qed.

(** When every fetch succeeds the loop is the fold of [place_message]
    and the counters are untouched. *)
Lemma threads_loop_fetched srv ids msgs threads cur h :
  Forall2 (λ id m, srv_fetch srv id = Ok m) ids msgs →
  threads_loop srv ids threads cur h
  = (Ok (place_all msgs (threads, cur)), h).
Proof.
  intros H. revert threads cur.
  induction H as [|id m ids msgs Hf _ IH]; intros threads cur; [done|].
  cbn [threads_loop]. unfold _fetch_email_data. rewrite Hf.
  destruct (place_message threads cur m) as [threads' cur'] eqn:E.
  rewrite IH. unfold place_all. cbn [foldl fst snd]. by rewrite E.
Qed.

Lemma adjacent_differ_snoc_same ths t t' :
  adjacent_differ (ths ++ [t]) → thread_norm t' = thread_norm t →
  adjacent_differ (ths ++ [t']).
Proof.
  intros H E i t1 t2 H1 H2.
  assert (S i < length (ths ++ [t']))%nat as Hlt by (by eapply lookup_lt_Some).
  rewrite length_app in Hlt. simpl in Hlt.
  rewrite lookup_app_l in H1 by lia.
  destruct (decide (S i = length ths)) as [Hi|Hi].
  - rewrite lookup_app_r, Hi, Nat.sub_diag in H2 by lia.
    injection H2 as <-. rewrite E.
    apply (H i t1 t); [by rewrite lookup_app_l by lia|].
    by rewrite lookup_app_r, Hi, Nat.sub_diag by lia.
  - rewrite lookup_app_l in H2 by lia.
    apply (H i t1 t2); by rewrite lookup_app_l by lia.
Qed.

Lemma adjacent_differ_snoc_new ths t t' :
  adjacent_differ (ths ++ [t]) → thread_norm t ≠ thread_norm t' →
  adjacent_differ ((ths ++ [t]) ++ [t']).
Proof.
  intros H E i t1 t2 H1 H2.
  assert (S i < length ((ths ++ [t]) ++ [t']))%nat as Hlt
    by (by eapply lookup_lt_Some).
  rewrite !length_app in Hlt. simpl in Hlt.
  rewrite lookup_app_l in H1 by (rewrite length_app; simpl; lia).
  destruct (decide (S i = length (ths ++ [t]))) as [Hi|Hi].
  - rewrite lookup_app_r, Hi, Nat.sub_diag in H2 by lia.
    injection H2 as <-.
    rewrite length_app in Hi. simpl in Hi.
    rewrite lookup_app_r in H1 by lia.
    replace (i - length ths)%nat with 0%nat in H1 by lia.
    by injection H1 as <-.
  - rewrite length_app in Hi. simpl in Hi.
    rewrite lookup_app_l in H2 by (rewrite length_app; simpl; lia).
    by apply (H i t1 t2).
Qed.

Lemma runs_of_place seen st m :
  runs_of seen st → runs_of (seen ++ [m]) (place_message st.1 st.2 m).
Proof.
  destruct st as [threads cur]. unfold runs_of. simpl.
  intros (Hcat & Hok & Hadj & Hnone).
  rewrite place_message_cases. destruct cur as [t|]; simpl in *.
  - case_bool_decide as E; simpl.
    + split_and!; [| | |done].
      * rewrite fmap_app, concat_app in *. simpl in *.
        rewrite app_nil_r in *. by rewrite <- Hcat, app_assoc.
      * apply Forall_app in Hok as [Hok1 Hok2].
        apply Forall_app. split; [done|].
        apply Forall_singleton. apply Forall_inv in Hok2.
        unfold thread_ok in Hok2. destruct Hok2 as [(m0 & ms & Hm & Hs) Hall].
        split; simpl.
        -- exists m0, (ms ++ [m]). by rewrite Hm.
        -- apply Forall_app. split; [done|]. by apply Forall_singleton.
      * by eapply adjacent_differ_snoc_same.
    + split_and!; [| | |done].
      * rewrite fmap_app, concat_app. simpl. by rewrite Hcat.
      * apply Forall_app. split; [done|]. apply Forall_singleton.
        split; simpl; [by eexists _, _|]. by apply Forall_singleton.
      * apply adjacent_differ_snoc_new; [done|].
        unfold thread_norm at 2. simpl. congruence.
  - rewrite Hnone in * by done. simpl in *. subst seen.
    split_and!; [done| | |done].
    + apply Forall_singleton. split; simpl; [by eexists _, _|].
      by apply Forall_singleton.
    + intros [|i] t1 t2 H1 H2; simpl in *; done.
Qed.

Lemma runs_of_place_all msgs seen st :
  runs_of seen st → runs_of (seen ++ msgs) (place_all msgs st).
Proof.
  revert seen st. induction msgs as [|m msgs IH]; intros seen st H.
  - by rewrite app_nil_r.
  - unfold place_all. simpl. fold (place_all msgs).
    replace (seen ++ m :: msgs) with ((seen ++ [m]) ++ msgs)
      by (by rewrite <- app_assoc).
    apply IH. by apply runs_of_place.
Qed.

Lemma runs_of_start : runs_of [] ([], None).
Proof.
  unfold runs_of. simpl. split_and!; [done|done| |done].
  intros i t1 t2 H. by rewrite lookup_nil in H.
Qed.

Lemma assemble_threads_fetched srv ids msgs h :
  Forall2 (λ id m, srv_fetch srv id = Ok m) ids msgs →
  assemble_threads srv ids h
  = (Ok (let st := place_all msgs ([], None) in st.1 ++ open_thread st.2), h).
Proof.
  intros H. unfold assemble_threads.
  rewrite (threads_loop_fetched _ _ _ _ _ _ H).
  destruct (place_all msgs ([], None)) as [threads [cur|]]; simpl; [done|].
  by rewrite app_nil_r.
Qed.

(** C1: the thread assembler is a single pass that keeps one current
    thread.  A fetched message joins the current thread exactly when its
    normalised subject equals that of the current thread; otherwise the
    current thread, if any, is emitted and a new thread is opened with
    the message as its first member.  Over a whole run the emitted
    threads split the fetched messages, in order, into maximal runs of
    equal normalised subject, and the subjects Offer, Offer, Other, Offer
    give three threads of sizes 2, 1, 1. *)
Theorem thread_assembler_streaming srv ids msgs h :
  Forall2 (λ id m, srv_fetch srv id = Ok m) ids msgs →
  (∀ threads cur m,
     place_message threads cur m =
     match cur with
     | Some t =>
         if bool_decide (_normalize_subject (subject m) = thread_norm t)
         then (threads,
               Some (mkThread (thread_subject t) (messages t ++ [m])))
         else (threads ++ [t], Some (mkThread (subject m) [m]))
     | None => (threads, Some (mkThread (subject m) [m]))
     end)
  ∧ (∀ threads cur,
       threads_loop srv ids threads cur h
       = (Ok (place_all msgs (threads, cur)), h))
  ∧ ∃ ths,
      assemble_threads srv ids h = (Ok ths, h)
      ∧ concat (messages <$> ths) = msgs
      ∧ Forall thread_ok ths
      ∧ adjacent_differ ths
      ∧ (subject <$> msgs = ["Offer"; "Offer"; "Other"; "Offer"] →
         (λ t, length (messages t)) <$> ths = [2; 1; 1]%nat).
Proof.
  intros H. split; [apply place_message_cases|].
  split; [intros; by apply threads_loop_fetched|].
  eexists. split; [by apply assemble_threads_fetched|].
  pose proof (runs_of_place_all msgs [] _ runs_of_start) as (Hcat & Hok & Hadj & _).
  split_and!; [done..|].
  intros Hs.
  destruct msgs as [|[i1 s1 f1 d1 b1 p1] [|[i2 s2 f2 d2 b2 p2]
    [|[i3 s3 f3 d3 b3 p3] [|[i4 s4 f4 d4 b4 p4] [|? ?]]]]];
    simplify_eq/=.
  reflexivity.
Qed.

Lemma thread_assembler_streaming_witness :
  ∃ ths,
    assemble_threads offers_server ["1"; "2"; "3"; "4"]
      (mkHandler true new_stats) = (Ok ths, mkHandler true new_stats)
    ∧ (λ t, length (messages t)) <$> ths = [2; 1; 1]%nat.
Proof.
  destruct (thread_assembler_streaming offers_server ["1"; "2"; "3"; "4"]
              offers (mkHandler true new_stats))
    as (_ & _ & ths & Hrun & _ & _ & _ & Hsizes).
  - repeat constructor.
  - exists ths. split; [exact Hrun|]. by apply Hsizes.
Defined.

End ImapFacts.

Module RetryFacts.
Import Exceptions Retry Samples.

(** [time.sleep] accepts exactly the durations from zero to the limit of
    the clock. *)
Lemma accepted_iff secs :
  accepted secs ↔ (0 <= secs)%Q ∧ (secs <= sleep_limit)%Q.
Proof.
  unfold accepted, time_sleep.
  destruct (Qle_bool 0 secs) eqn:E0; simpl.
  - destruct (Qle_bool secs sleep_limit) eqn:E1; simpl.
    + split; [intros _|done]. split; by apply Qle_bool_iff.
    + split; [done|]. intros [_ H]. apply Qle_bool_iff in H. congruence.
  - split; [done|]. intros [H _]. apply Qle_bool_iff in H. congruence.
Qed.

Lemma pow2_ge_1 (k : nat) : (1 <= inject_Z (2 ^ Z.of_nat k))%Q.
Proof.
  change 1%Q with (inject_Z 1). rewrite <- Zle_Qle.
  pose proof (Z.pow_pos_nonneg 2 (Z.of_nat k)). lia.
Qed.

Lemma pow2_succ (k : nat) :
  (inject_Z (2 ^ Z.of_nat (S k)) == 2 * inject_Z (2 ^ Z.of_nat k))%Q.
Proof.
  rewrite Nat2Z.inj_succ, Z.pow_succ_r by lia. by rewrite inject_Z_mult.
Qed.

(** A delay that is not negative and whose largest multiple is within
    the limit is accepted at every doubling. *)
Lemma backoff_accepted (k : nat) :
  ∀ d, (0 <= d)%Q → (d * inject_Z (2 ^ Z.of_nat k) <= sleep_limit)%Q →
       Forall accepted (backoff (S k) d).
Proof.
  induction k as [|k IH]; intros d H0 Hmax.
  - constructor; [|constructor]. apply accepted_iff. split; [done|].
    change (inject_Z (2 ^ Z.of_nat 0)) with 1%Q in Hmax.
    by rewrite Qmult_1_r in Hmax.
  - pose proof (pow2_ge_1 (S k)) as Hp.
    cbn [backoff]. constructor.
    + apply accepted_iff. split; [done|].
      apply Qle_trans with (1 * d)%Q; [rewrite Qmult_1_l; apply Qle_refl|].
      apply Qle_trans with (inject_Z (2 ^ Z.of_nat (S k)) * d)%Q;
        [by apply Qmult_le_compat_r|].
      rewrite Qmult_comm. exact Hmax.
    + apply IH.
      * apply Qmult_le_0_compat; [done|]. by compute.
      * eapply Qle_trans; [|exact Hmax].
        rewrite pow2_succ. rewrite <- Qmult_assoc. apply Qle_refl.
Qed.

Section Loop.
Context {W A : Type}.
Variable attempts : Z.
Variable func : W → result A * W.

Lemma fails_at_S i w : fails_at func (S i) w ↔ fails_at func i (snd (func w)).
Proof. done. Qed.

(** [k] failures followed by a success, with enough attempts left. *)
Lemma wrapper_loop_success (k : nat) :
  ∀ (a n : Z) d last w sleeps v,
    (0 ≤ a)%Z → (Z.of_nat k < n)%Z → (a + Z.of_nat k < attempts)%Z →
    (∀ i, (i < k)%nat → fails_at func i w) →
    Forall accepted (backoff k d) →
    outcome_at func k w = Ok v →
    wrapper_loop attempts func (seqZ a n) d last w sleeps
    = (Ok (Some v), world_after func (S k) w, sleeps ++ backoff k d).
Proof.
  induction k as [|k IH];
    intros a n d last w sleeps v Ha Hn Hlt Hfail Hacc Hok.
  - rewrite seqZ_cons by lia. cbn [wrapper_loop].
    unfold outcome_at in Hok. simpl in Hok.
    destruct (func w) as [r w'] eqn:E. simpl in *. subst r.
    by rewrite E, app_nil_r.
  - rewrite seqZ_cons by lia. cbn [wrapper_loop].
    destruct (Hfail 0%nat ltac:(lia)) as [e He].
    unfold outcome_at in He. simpl in He.
    destruct (func w) as [r w'] eqn:E. simpl in He. subst r.
    rewrite bool_decide_eq_true_2 by lia.
    cbn [backoff] in Hacc. apply Forall_cons in Hacc as [Hd Hacc].
    unfold accepted in Hd. rewrite Hd.
    rewrite (IH (Z.succ a) (Z.pred n) _ _ w' _ v); try lia; try done.
    + cbn [world_after backoff]. rewrite E. simpl.
      by rewrite <- app_assoc.
    + intros i Hi. specialize (Hfail (S i) ltac:(lia)).
      apply (proj1 (fails_at_S _ _)) in Hfail. by rewrite E in Hfail.
    + unfold outcome_at in *. simpl in Hok. by rewrite E in Hok.
Qed.

(** The last [S m] attempts all fail. *)
Lemma wrapper_loop_exhausted (m : nat) :
  ∀ (a : Z) d last w sleeps e,
    (a + Z.of_nat (S m) = attempts)%Z →
    (∀ i, (i ≤ m)%nat → fails_at func i w) →
    Forall accepted (backoff m d) →
    outcome_at func m w = Raise e →
    wrapper_loop attempts func (seqZ a (Z.of_nat (S m))) d last w sleeps
    = (if exn_truthy e then Raise e else Ok None,
       world_after func (S m) w, sleeps ++ backoff m d).
Proof.
  induction m as [|m IH]; intros a d last w sleeps e Ha Hfail Hacc Hlast.
  - rewrite seqZ_cons by lia. cbn [wrapper_loop].
    unfold outcome_at in Hlast. simpl in Hlast.
    destruct (func w) as [r w'] eqn:E. simpl in *. subst r.
    rewrite bool_decide_eq_false_2 by lia.
    change (Z.pred (Z.of_nat 1)) with 0%Z. simpl.
    rewrite E, app_nil_r. by destruct (exn_truthy e).
  - rewrite seqZ_cons by lia. cbn [wrapper_loop].
    destruct (Hfail 0%nat ltac:(lia)) as [e0 He].
    unfold outcome_at in He. simpl in He.
    destruct (func w) as [r w'] eqn:E. simpl in He. subst r.
    rewrite bool_decide_eq_true_2 by lia.
    cbn [backoff] in Hacc. apply Forall_cons in Hacc as [Hd Hacc].
    unfold accepted in Hd. rewrite Hd.
    replace (Z.pred (Z.of_nat (S (S m)))) with (Z.of_nat (S m)) by lia.
    rewrite (IH (Z.succ a) _ _ w' _ e); try lia; try done.
    + cbn [world_after backoff]. rewrite E. simpl.
      by rewrite <- app_assoc.
    + intros i Hi. specialize (Hfail (S i) ltac:(lia)).
      apply (proj1 (fails_at_S _ _)) in Hfail. by rewrite E in Hfail.
    + unfold outcome_at in *. simpl in Hlast. by rewrite E in Hlast.
Qed.

End Loop.

(** C3, as stated, fails on two inputs.  With a negative base delay the
    function that fails twice and then succeeds is called once: the
    first [time.sleep] raises [ValueError] inside the [except] clause and
    that error leaves the wrapper, with no sleep and no second try.  And
    when every attempt fails with an exception object that tests false,
    the wrapper does not raise the last failure: it returns [None]. *)
Lemma retry_with_backoff_unguarded :
  retry_with_backoff 3 (-1) flaky 0%nat
  = (Raise (ValueError "sleep length must be non-negative"), 1%nat, [])
  ∧ retry_with_backoff 3 1 quiet_failure 0%nat
    = (Ok None, 3%nat, [1%Q; (1 * 2)%Q])
  ∧ (∀ i, fails_at quiet_failure i 0%nat).
Proof.
  split_and!; [reflexivity|reflexivity|].
  intros i. by exists (FalsyError "Quiet").
Qed.

(** C3, amended: with [attempts >= 1] and delays that [time.sleep]
    accepts (a base delay that is not negative and whose doublings stay
    within the clock), the wrapper returns the first successful result at
    once, having called the function exactly as many times as there were
    attempts up to and including the success; before each retry it sleeps
    the current delay and doubles it; it does not sleep after the last
    failed attempt; and when every attempt fails it raises the last
    failure, provided that exception object tests true, as the instances
    of the built-in classes do.  A function that fails twice and then
    succeeds returns its value after the two sleeps [delay] and
    [2 * delay]. *)
Theorem retry_with_backoff_policy {W A : Type} (attempts : Z) (delay : Q)
    (func : W → result A * W) (w : W) :
  (1 ≤ attempts)%Z →
  (∀ (k : nat) v,
     (Z.of_nat k < attempts)%Z →
     (∀ i, (i < k)%nat → fails_at func i w) →
     Forall accepted (backoff k delay) →
     outcome_at func k w = Ok v →
     retry_with_backoff attempts delay func w
     = (Ok (Some v), world_after func (S k) w, backoff k delay))
  ∧ (∀ e,
       (∀ i, (Z.of_nat i < attempts)%Z → fails_at func i w) →
       Forall accepted (backoff (Z.to_nat attempts - 1) delay) →
       outcome_at func (Z.to_nat attempts - 1) w = Raise e →
       exn_truthy e = true →
       retry_with_backoff attempts delay func w
       = (Raise e, world_after func (Z.to_nat attempts) w,
          backoff (Z.to_nat attempts - 1) delay))
  ∧ (∀ k : nat,
       (0 <= delay)%Q →
       (delay * inject_Z (2 ^ Z.of_nat k) <= sleep_limit)%Q →
       Forall accepted (backoff (S k) delay))
  ∧ (∀ v,
       (3 ≤ attempts)%Z →
       fails_at func 0 w → fails_at func 1 w →
       (0 <= delay)%Q → (delay * 2 <= sleep_limit)%Q →
       outcome_at func 2 w = Ok v →
       retry_with_backoff attempts delay func w
       = (Ok (Some v), world_after func 3 w, [delay; (delay * 2)%Q])).
Proof.
  intros Hn.
  assert (Hsucc : ∀ (k : nat) v,
     (Z.of_nat k < attempts)%Z →
     (∀ i, (i < k)%nat → fails_at func i w) →
     Forall accepted (backoff k delay) →
     outcome_at func k w = Ok v →
     retry_with_backoff attempts delay func w
     = (Ok (Some v), world_after func (S k) w, backoff k delay)).
  { intros k v Hk Hfail Hacc Hok. unfold retry_with_backoff, wrapper.
    by rewrite (wrapper_loop_success attempts func k 0 attempts delay None w [] v)
      by (done || lia). }
  split_and!; [exact Hsucc| | |].
  - intros e Hfail Hacc Hlast He. unfold retry_with_backoff, wrapper.
    destruct (Z.to_nat attempts) as [|m] eqn:Em; [lia|].
    replace attempts with (Z.of_nat (S m)) at 2 by lia.
    replace (S m - 1)%nat with m in * by lia.
    rewrite (wrapper_loop_exhausted attempts func m 0 delay None w [] e);
      [by rewrite He|lia| |done|done].
    intros i Hi. apply Hfail. lia.
  - intros k. apply backoff_accepted.
  - intros v H3 H0 H1 Hd0 Hd2 Hok.
    apply (Hsucc 2%nat v); [lia| | |done].
    + intros [|[|i]] Hi; [done|done|lia].
    + apply (backoff_accepted 1 delay Hd0). exact Hd2.
Qed.

Lemma retry_with_backoff_policy_witness :
  (1 ≤ 3)%Z
  ∧ retry_with_backoff 3 1 flaky 0%nat
    = (Ok (Some 2%nat), 3%nat, [1%Q; (1 * 2)%Q]).
Proof.
  split; [lia|].
  apply (proj2 (proj2 (proj2
           (retry_with_backoff_policy 3 1 flaky 0%nat ltac:(lia))))).
  - lia.
  - by exists (ExternalError "timeout").
  - by exists (ExternalError "timeout").
  - by compute.
  - by compute.
  - reflexivity.
Defined.

End RetryFacts.

Module StatsFacts.
Import Stats Imap Samples.

Lemma dom_default_errors :
  dom default_errors
  = ({["imap"; "lm_studio"; "excel"; "search"; "processing"]} : gset string).
Proof. unfold default_errors. rewrite !dom_insert_L, dom_empty_L. set_solver. Qed.

Lemma errors_incr_missing key st :
  key ∉ dom (errors st) → errors_incr key st = Raise (KeyError key).
Proof.
  intros H. apply not_elem_of_dom in H. unfold errors_incr. by rewrite H.
Qed.

Lemma count_and_reraise_missing key e st :
  key ∉ dom (errors st) → count_and_reraise key e st = (KeyError key, st).
Proof.
  intros H. unfold count_and_reraise. by rewrite errors_incr_missing.
Qed.

Lemma imap_keys_missing st :
  dom (errors st) = dom (errors new_stats) →
  ("imap_connect" ∉ dom (errors st)) ∧ ("imap_search" ∉ dom (errors st))
  ∧ ("imap_fetch" ∉ dom (errors st)) ∧ ("imap_mark" ∉ dom (errors st)).
Proof.
  intros ->. split_and!; by apply not_elem_of_dom.
Qed.

(** C10: [errors] starts with exactly the five keys imap, lm_studio,
    excel, search and processing; incrementing any other key raises
    [KeyError]; so on the error path of connect, search, fetch and
    mark-as-read the increment in the [except] clause raises [KeyError]
    for its uninitialised key, no counter changes, and the decorated
    [search] and [mark_as_read] raise that [KeyError] after their three
    attempts. *)
Theorem imap_error_paths_raise_KeyError :
  dom (errors new_stats)
  = ({["imap"; "lm_studio"; "excel"; "search"; "processing"]} : gset string)
  ∧ (∀ key, key ∉ dom (errors new_stats) →
            errors_incr key new_stats = Raise (KeyError key))
  ∧ ∀ srv h,
      dom (errors (stats h)) = dom (errors new_stats) →
      (∀ e, (connect_steps srv h).1 = Raise e →
            _connect srv h
            = (Raise (KeyError "imap_connect"), (connect_steps srv h).2)
            ∧ stats (connect_steps srv h).2 = stats h)
      ∧ (∀ criteria e,
           conn h = true → srv_search srv criteria = Raise e →
           search_body srv criteria h = (Raise (KeyError "imap_search"), h)
           ∧ search srv criteria h
             = (Raise (KeyError "imap_search"), h, [1%Q; (1 * 2)%Q]))
      ∧ (∀ msg_id e,
           srv_fetch srv msg_id = Raise e →
           _fetch_email_data srv msg_id h
           = (Raise (KeyError "imap_fetch"), h))
      ∧ (∀ msg_id e,
           conn h = true → srv_store srv msg_id = Raise e →
           mark_as_read_body srv msg_id h = (Raise (KeyError "imap_mark"), h)
           ∧ mark_as_read srv msg_id h
             = (Raise (KeyError "imap_mark"), h, [1%Q; (1 * 2)%Q])).
Proof.
  split; [apply dom_default_errors|].
  split; [intros; by apply errors_incr_missing|].
  intros srv [c st] Hdom. simpl in Hdom.
  destruct (imap_keys_missing st Hdom) as (Hc & Hs & Hf & Hm).
  split_and!.
  - intros e He. unfold _connect.
    assert (stats (connect_steps srv (mkHandler c st)).2 = st) as Hst.
    { unfold connect_steps.
      by destruct (srv_open srv), (srv_login srv), (srv_select srv). }
    destruct (connect_steps srv (mkHandler c st)) as [r h'] eqn:E.
    simpl in *. subst r. rewrite Hst.
    rewrite (count_and_reraise_missing _ _ _ Hc).
    by destruct h'; simpl in *; subst.
  - intros criteria e Hconn Hsearch. simpl in Hconn. subst c.
    assert (search_body srv criteria (mkHandler true st)
            = (Raise (KeyError "imap_search"), mkHandler true st)) as Hbody.
    { unfold search_body, ensure_connected. simpl. rewrite Hsearch. simpl.
      by rewrite (count_and_reraise_missing _ _ _ Hs). }
    split; [done|].
    unfold search, Retry.retry_with_backoff, Retry.wrapper.
    change (seqZ 0 3) with [0; 1; 2]%Z. simpl.
    by rewrite !Hbody.
  - intros msg_id e Hfetch. unfold _fetch_email_data. rewrite Hfetch. simpl.
    by rewrite (count_and_reraise_missing _ _ _ Hf).
  - intros msg_id e Hconn Hstore. simpl in Hconn. subst c.
    assert (mark_as_read_body srv msg_id (mkHandler true st)
            = (Raise (KeyError "imap_mark"), mkHandler true st)) as Hbody.
    { unfold mark_as_read_body, ensure_connected. simpl. rewrite Hstore.
      simpl. by rewrite (count_and_reraise_missing _ _ _ Hm). }
    split; [done|].
    unfold mark_as_read, Retry.retry_with_backoff, Retry.wrapper.
    change (seqZ 0 3) with [0; 1; 2]%Z. simpl.
    by rewrite !Hbody.
Qed.

Lemma imap_error_paths_raise_KeyError_witness :
  _connect down (mkHandler false new_stats)
  = (Raise (KeyError "imap_connect"), mkHandler false new_stats)
  ∧ search down "UNSEEN" (mkHandler true new_stats)
    = (Raise (KeyError "imap_search"), mkHandler true new_stats,
       [1%Q; (1 * 2)%Q])
  ∧ _fetch_email_data down "1" (mkHandler true new_stats)
    = (Raise (KeyError "imap_fetch"), mkHandler true new_stats)
  ∧ mark_as_read down "1" (mkHandler true new_stats)
    = (Raise (KeyError "imap_mark"), mkHandler true new_stats,
       [1%Q; (1 * 2)%Q]).
Proof.
  destruct imap_error_paths_raise_KeyError as (_ & _ & H).
  split_and!.
  - by apply (H down (mkHandler false new_stats) eq_refl)
      with (e := ExternalError "refused").
  - by apply (H down (mkHandler true new_stats) eq_refl)
      with (e := ExternalError "search").
  - by apply (H down (mkHandler true new_stats) eq_refl)
      with (e := ExternalError "fetch").
  - by apply (H down (mkHandler true new_stats) eq_refl)
      with (e := ExternalError "store").
Defined.

End StatsFacts.

Module SearchFacts.
Import Text Stats Search Samples.

Section Loop.
Context {W : Type}.
Implicit Types (st : ProcessingStats) (w : W).

Lemma after_failures_0 st n :
  errors st !! "search" = Some n → after_failures 0 n st = st.
Proof.
  intros H. unfold after_failures, set_errors.
  rewrite Z.add_0_r, insert_id by done. by destruct st.
Qed.

Lemma errors_incr_search st n :
  errors st !! "search" = Some n →
  errors_incr "search" st = Ok (after_failures 1 n st).
Proof. intros H. unfold errors_incr. by rewrite H. Qed.

Lemma after_failures_S st n k :
  after_failures k (n + 1) (after_failures 1 n st)
  = after_failures (S k) n st.
Proof.
  unfold after_failures, set_errors. simpl.
  rewrite insert_insert_eq. do 2 f_equal. lia.
Qed.

Lemma after_failures_lookup st n k :
  errors (after_failures k n st) !! "search" = Some (n + Z.of_nat k)%Z.
Proof. unfold after_failures. simpl. by rewrite lookup_insert_eq. Qed.

Lemma after_failures_other st n k key :
  key ≠ "search" →
  errors (after_failures k n st) !! key = errors st !! key.
Proof. intros H. unfold after_failures. simpl. by rewrite lookup_insert_ne. Qed.

Lemma find_reply_loop_hit (pre : list (@Strategy W)) w k w1 :
  tried pre w k w1 →
  ∀ st n name f post res w2,
    errors st !! "search" = Some n →
    f w1 = (Ok res, w2) → truthy_reply res = true →
    find_reply_loop (pre ++ (name, f) :: post) st w
    = (Ok res,
       set_replies_found (after_failures k n st) (replies_found st + 1),
       w2).
Proof.
  induction 1 as [w|name0 f0 e rest w w' k w'' Hf _ IH
                   |name0 f0 res0 rest w w' k w'' Hf Hno _ IH];
    intros st n name f post res w2 Hn Hres Htrue.
  - simpl. rewrite Hres, Htrue. by rewrite after_failures_0.
  - simpl. rewrite Hf, (errors_incr_search _ _ Hn).
    rewrite (IH _ (n + 1)%Z name f post res w2);
      [|apply after_failures_lookup|done|done].
    by rewrite after_failures_S.
  - simpl. rewrite Hf, Hno. by apply IH.
Qed.

Lemma find_reply_loop_miss (all : list (@Strategy W)) w k w1 :
  tried all w k w1 →
  ∀ st n,
    errors st !! "search" = Some n →
    find_reply_loop all st w = (Ok None, after_failures k n st, w1).
Proof.
  induction 1 as [w|name0 f0 e rest w w' k w'' Hf _ IH
                   |name0 f0 res0 rest w w' k w'' Hf Hno _ IH];
    intros st n Hn.
  - simpl. by rewrite after_failures_0.
  - simpl. rewrite Hf, (errors_incr_search _ _ Hn).
    rewrite (IH _ (n + 1)%Z) by apply after_failures_lookup.
    by rewrite after_failures_S.
  - simpl. rewrite Hf, Hno. by apply IH.
Qed.

(** The loop always returns, and touches no error key but
    ['search']. *)
Lemma find_reply_loop_total (all : list (@Strategy W)) :
  ∀ st n w,
    errors st !! "search" = Some n →
    ∃ res st' w',
      find_reply_loop all st w = (Ok res, st', w')
      ∧ dom (errors st') = dom (errors st)
      ∧ ∀ key, key ≠ "search" → errors st' !! key = errors st !! key.
Proof.
  induction all as [|[name f] rest IH]; intros st n w Hn; simpl.
  - by eexists _, _, _.
  - destruct (f w) as [[res|e] w'].
    + destruct (truthy_reply res); [by eexists _, _, _|by eapply IH].
    + rewrite (errors_incr_search _ _ Hn).
      destruct (IH (after_failures 1 n st) (n + 1)%Z w'
                  (after_failures_lookup _ _ _))
        as (res & st' & w'' & -> & Hdom & Hkeys).
      eexists _, _, _. split; [done|]. split.
      * rewrite Hdom. unfold after_failures. simpl.
        rewrite dom_insert_L.
        apply subseteq_union_1_L, singleton_subseteq_l.
        apply elem_of_dom. by eexists.
      * intros key Hkey. rewrite Hkeys by done.
        by apply after_failures_other.
Qed.

End Loop.

(** C5, as stated, fails: a failure of the first strategy and a failure
    of the second leave the same trace in the counters, one more under
    the key ['search'], and nothing under a key of the strategy. *)
Lemma find_reply_errors_not_per_strategy :
  let r1 := find_reply_loop first_raises new_stats 0%nat in
  let r2 := find_reply_loop second_raises new_stats 0%nat in
  r1.1.1 = Ok (Some found)
  ∧ errors r1.1.2 = <["search" := 1%Z]> default_errors
  ∧ errors r1.1.2 !! "message_id" = None
  ∧ errors r2.1.2 = errors r1.1.2.
Proof. by vm_compute. Qed.

(** C5, amended: the strategies are tried in list order (by message
    reference, by reference chain, by sender, subject and date); the
    first non-empty result is returned and no later strategy is run; an
    exception of a strategy is caught, counted under the one shared key
    ['search'] whichever strategy raised it, and the search goes on.
    When the first strategy raises and the second succeeds the result is
    the second's and ['search'] has grown by one. *)
Theorem find_reply_first_hit_wins {W : Type} (st : ProcessingStats) (n : Z) :
  errors st !! "search" = Some n →
  (∀ sent_item mail_uid parse_date days_ago extract_fields,
     fst <$> search_strategies mail_uid parse_date days_ago extract_fields
               sent_item
     = ["message_id"; "references"; "subject_from"])
  ∧ (∀ (pre post : list (@Strategy W)) name f w k w1 res w2,
       tried pre w k w1 →
       f w1 = (Ok res, w2) → truthy_reply res = true →
       find_reply_loop (pre ++ (name, f) :: post) st w
       = (Ok res,
          set_replies_found (after_failures k n st) (replies_found st + 1),
          w2))
  ∧ (∀ (all : list (@Strategy W)) w k w1,
       tried all w k w1 →
       find_reply_loop all st w = (Ok None, after_failures k n st, w1))
  ∧ (∀ (all : list (@Strategy W)) w,
       ∃ res st' w',
         find_reply_loop all st w = (Ok res, st', w')
         ∧ dom (errors st') = dom (errors st)
         ∧ ∀ key, key ≠ "search" → errors st' !! key = errors st !! key)
  ∧ (∀ (s1 s2 s3 : @Strategy W) w e w1 res w2,
       s1.2 w = (Raise e, w1) →
       s2.2 w1 = (Ok res, w2) → truthy_reply res = true →
       find_reply_loop [s1; s2; s3] st w
       = (Ok res,
          set_replies_found (after_failures 1 n st) (replies_found st + 1),
          w2)).
Proof.
  intros Hn. split_and!.
  - done.
  - intros. by eapply find_reply_loop_hit.
  - intros. by eapply find_reply_loop_miss.
  - intros. by eapply find_reply_loop_total.
  - intros [n1 f1] [n2 f2] s3 w e w1 res w2 H1 H2 Ht. simpl in H1, H2.
    apply (find_reply_loop_hit [(n1, f1)] w 1 w1 ltac:(by repeat econstructor)
             st n n2 f2 [s3]); done.
Qed.

Lemma find_reply_first_hit_wins_witness :
  errors new_stats !! "search" = Some 0%Z
  ∧ find_reply_loop first_raises new_stats 0%nat
    = (Ok (Some found),
       set_replies_found (after_failures 1 0 new_stats) 1, 2%nat).
Proof.
  split; [reflexivity|].
  by apply (proj2 (proj2 (proj2 (proj2
        (find_reply_first_hit_wins (W := nat) new_stats 0 eq_refl)))))
    with (e := ExternalError "search failed") (w1 := 1%nat).
Defined.

Section Strategies.
Variable mail_uid : Command → result (string * string).
Variable parse_date : string → result string.
Variable days_ago : Z → string.
Variable extract_fields : string → result (option Reply).

Lemma global_timedelta : global "timedelta" = Raise (NameError "timedelta").
Proof. reflexivity. Qed.

Lemma global_email : global "email" = Raise (NameError "email").
Proof. reflexivity. Qed.

(** The fetch helper never yields a message: [email] is not bound in
    the module, and the [NameError] is swallowed with the rest. *)
Lemma fetch_and_parse_none u log :
  ∃ log', _fetch_and_parse_message mail_uid extract_fields u log
          = (Ok None, log').
Proof.
  unfold _fetch_and_parse_message, uid.
  destruct (mail_uid _) as [[typ data]|e]; [|by eexists].
  destruct (negb (String.eqb typ "OK")); [by eexists|].
  rewrite global_email. by eexists.
Qed.

(** With an unparsable date the third strategy raises before any
    search is issued. *)
Lemma subject_and_from_unparsed sent_item log e :
  parse_date (date sent_item) = Raise e →
  _search_by_subject_and_from mail_uid parse_date days_ago extract_fields
    sent_item log
  = (Raise (NameError "timedelta"), log).
Proof.
  intros H. unfold _search_by_subject_and_from. by rewrite H.
Qed.

End Strategies.

(** C6 at a sent item whose date does not parse: the third strategy
    raises [NameError] for the unbound name [timedelta] and issues no
    search at all, where the claim expects the two searches anchored
    fourteen days back; the reply finder counts the failure under
    ['search'] and returns nothing. *)
Theorem subject_and_from_fallback_raises :
  _search_by_subject_and_from one_hit strict_dates clock no_fields undated []
  = (Raise (NameError "timedelta"), [])
  ∧ fallback_commands clock undated ≠ []
  ∧ find_reply_optimized one_hit strict_dates clock no_fields undated
      new_stats []
    = (Ok None, after_failures 1 0 new_stats, []).
Proof. split_and!; [reflexivity|discriminate|by vm_compute]. Qed.

End SearchFacts.

Module ExcelFacts.
Import Text TextFacts Stats Exceptions Excel Samples.

Lemma normalize_email_idem a :
  normalize_email (normalize_email a) = normalize_email a.
Proof.
  unfold normalize_email.
  by rewrite <- strip_lower, lower_idem, strip_idem.
Qed.

Lemma cell_at_set df i col v r c :
  cell (at_set df i col v) r c
  = if bool_decide ((r, c) = (i, col)) then v else cell df r c.
Proof.
  unfold cell, at_set. simpl. case_bool_decide as E.
  - rewrite E. by rewrite lookup_insert_eq.
  - by rewrite lookup_insert_ne.
Qed.

Section WithConfig.
Variable cfg : Config.
Variable normalize_nontext : Value → result string.

Local Abbreviation scan_rows := (scan_rows cfg normalize_nontext).
Local Abbreviation find_related_rows := (find_related_rows cfg normalize_nontext).
Local Abbreviation write_response := (write_response cfg normalize_nontext).
Local Abbreviation update_row_data := (update_row_data cfg normalize_nontext).
Local Abbreviation update_rows := (update_rows cfg normalize_nontext).
Local Abbreviation process_email_thread := (process_email_thread cfg normalize_nontext).
Local Abbreviation apply_to_all := (apply_to_all cfg normalize_nontext).

(** *** Row matcher *)

(** The first pass of the loop raises, whatever the row holds. *)
Lemma scan_rows_raises df idx labels original related results :
  scan_rows df (idx :: labels) original related results
  = Raise AttributeError.
Proof. done. Qed.

Lemma find_related_rows_loaded m df original related :
  _df m = Some df →
  find_related_rows m original related
  = match df_index df with
    | [] => Ok []
    | _ :: _ => Raise AttributeError
    end.
Proof.
  intros Hdf. unfold Excel.find_related_rows. rewrite Hdf.
  by destruct (df_index df).
Qed.

(** *** Update applier *)

Lemma last_write_acc data col acc :
  last_write cfg data col acc
  = match last_write cfg data col None with
    | Some v => Some v
    | None => acc
    end.
Proof.
  revert acc. induction data as [|[key value] data IH]; intros acc; simpl.
  - done.
  - case_bool_decide; [|apply IH].
    rewrite (IH (Some _)). by destruct (last_write cfg data col None).
Qed.

Lemma cell_write_fields data row_idx :
  ∀ df r c,
    cell (write_fields cfg data row_idx df) r c
    = if bool_decide (r = row_idx)
      then default (cell df r c) (last_write cfg data c None)
      else cell df r c.
Proof.
  induction data as [|[key value] data IH]; intros df r c; simpl.
  - by case_bool_decide.
  - destruct (columns cfg !! key) as [col|] eqn:Hkey.
    + rewrite IH, cell_at_set.
      rewrite (last_write_acc data c (Some _)).
      destruct (last_write cfg data c None);
        repeat case_bool_decide; simplify_eq/=; done.
    + rewrite IH. by rewrite (bool_decide_eq_false_2 (None = Some c)).
Qed.

Lemma last_write_none data col :
  (∀ key value, (key, value) ∈ data → columns cfg !! key ≠ Some col) →
  last_write cfg data col None = None.
Proof.
  induction data as [|[k v] data IH]; intros H; simpl; [done|].
  rewrite bool_decide_eq_false_2
    by (apply (H k v); left).
  apply IH. intros k' v' Hin. apply (H k' v'). by right.
Qed.

Lemma last_write_some data col x :
  last_write cfg data col None = Some x →
  ∃ k v, (k, v) ∈ data ∧ columns cfg !! k = Some col ∧ x = trimmed v.
Proof.
  induction data as [|[k v] data IH]; simpl; [done|].
  case_bool_decide as Hk.
  - rewrite last_write_acc.
    destruct (last_write cfg data col None) as [y|] eqn:Ey.
    + intros [= ->]. destruct (IH eq_refl) as (k' & v' & ? & ? & ?).
      exists k', v'. split_and!; [by right|done..].
    + intros [= <-]. exists k, v. split_and!; [left|done..].
  - intros Hd. destruct (IH Hd) as (k' & v' & ? & ? & ?).
    exists k', v'. split_and!; [by right|done..].
Qed.

Lemma last_write_is_some data col k v :
  (k, v) ∈ data → columns cfg !! k = Some col →
  is_Some (last_write cfg data col None).
Proof.
  induction data as [|[k0 v0] data IH]; intros Hin Hk; simpl.
  - by apply elem_of_nil in Hin.
  - case_bool_decide as Hk0.
    + rewrite last_write_acc.
      by destruct (last_write cfg data col None).
    + apply elem_of_cons in Hin as [[= -> ->]|Hin]; [done|by apply IH].
Qed.

Lemma last_write_only data col k v :
  (k, v) ∈ data → columns cfg !! k = Some col →
  (∀ k' v', (k', v') ∈ data → columns cfg !! k' = Some col → v' = v) →
  last_write cfg data col None = Some (trimmed v).
Proof.
  intros Hin Hk Hall.
  destruct (last_write_is_some _ _ _ _ Hin Hk) as [x Hx].
  destruct (last_write_some _ _ _ Hx) as (k' & v' & Hin' & Hk' & ->).
  by rewrite Hx, (Hall k' v').
Qed.

Lemma write_fields_configured data row_idx :
  ∀ df,
    write_fields cfg data row_idx df
    = write_fields cfg
        (filter (λ kv, is_Some (columns cfg !! kv.1)) data) row_idx df.
Proof.
  induction data as [|[key value] data IH]; intros df; [done|].
  simpl. destruct (columns cfg !! key) as [col|] eqn:Hkey.
  - rewrite filter_cons_True by (simpl; by rewrite Hkey).
    simpl. rewrite Hkey. apply IH.
  - rewrite filter_cons_False by (simpl; rewrite Hkey; by intros [? ?]).
    apply IH.
Qed.

Lemma write_response_frame row_idx response df :
  ∀ r c, (r, c) ≠ (row_idx, response_mail_column cfg) →
         cell (write_response row_idx response df).2 r c = cell df r c.
Proof.
  intros r c Hne. unfold Excel.write_response, mail_column.
  by repeat (case_match; simpl; try done).
Qed.

(** The response step with an address: it raises at the read of
    [self.mail_column] and leaves the frame as it is. *)
Lemma write_response_raises row_idx r df :
  truthy r = true →
  write_response row_idx (Some r) df = (Raise AttributeError, df).
Proof. intros Hr. unfold Excel.write_response. by rewrite Hr. Qed.

(** *** Thread reconciliation *)

Lemma select_response_filter froms found :
  select_response froms found
  = head (filter (λ a, normalize_email a ≠ normalize_email found) froms).
Proof.
  induction froms as [|a froms IH]; [done|].
  cbn [select_response]. case_bool_decide as E.
  - by rewrite filter_cons_True by exact E.
  - by rewrite filter_cons_False by (intros H; exact (H E)).
Qed.

Lemma update_rows_apply rows td analysis_results :
  Forall (λ row : Z * string, normalize_email row.2 = row.2) rows →
  ∀ m, update_rows rows td analysis_results m
       = apply_to_all rows td analysis_results m.
Proof.
  unfold Excel.apply_to_all.
  induction 1 as [|[idx found] rows Hn _ IH]; intros m; [done|].
  simpl in *. rewrite select_response_filter, Hn.
  fold (first_divergent (senders td) found).
  destruct (update_row_data m idx analysis_results _) as [[[]|e] m'].
  - apply IH.
  - clear. induction rows as [|row rows IH]; [done|]. simpl. apply IH.
Qed.

End WithConfig.

(** C2: the code does not do what the claim says.  The loop of
    [find_related_rows] reads [self.mail_column], an attribute that
    [__init__] never assigns, so on a loaded table that has a row the
    first pass raises [AttributeError], whatever the addresses of the
    table, the query and the related set; no row is ever returned.  For
    the rows with the primary addresses a@x.com and B@X.com and the
    query b@x.com the call raises instead of returning the second
    row. *)
Theorem find_related_rows_raises cfg normalize_nontext m df original related :
  _df m = Some df →
  (df_index df ≠ [] →
   find_related_rows cfg normalize_nontext m original related
   = Raise AttributeError)
  ∧ (∀ rows,
       find_related_rows cfg normalize_nontext m original related = Ok rows →
       rows = []).
Proof.
  intros Hdf.
  rewrite (find_related_rows_loaded cfg normalize_nontext m df _ _ Hdf).
  destruct (df_index df); split; try done.
  by intros rows [= <-].
Qed.

Lemma find_related_rows_raises_witness :
  cell sheet 0 "email" = VStr "a@x.com"
  ∧ cell sheet 1 "email" = VStr "B@X.com"
  ∧ find_related_rows sheet_cfg nontext_fails loaded "b@x.com" ∅
    = Raise AttributeError.
Proof.
  split_and!; [reflexivity|reflexivity|].
  by apply (find_related_rows_raises sheet_cfg nontext_fails loaded sheet
              "b@x.com" ∅ eq_refl).
Defined.

Lemma first_divergent_split froms matched a :
  first_divergent froms matched = Some a
  ↔ ∃ pre post, froms = pre ++ a :: post
                ∧ Forall (λ x, normalize_email x = matched) pre
                ∧ normalize_email a ≠ matched.
Proof.
  unfold first_divergent. induction froms as [|x froms IH].
  - split; [done|]. intros (pre & post & H & _). by destruct pre.
  - destruct (decide (normalize_email x = matched)) as [E|E].
    + rewrite filter_cons_False by (intros H; exact (H E)).
      rewrite IH. split.
      * intros (pre & post & -> & Hpre & Ha).
        exists (x :: pre), post.
        split; [done|]. split; [by constructor|done].
      * intros (pre & post & Heq & Hpre & Ha).
        destruct pre as [|y pre]; simplify_eq/=; try done.
        exists pre, post.
        split; [done|]. split; [by eapply Forall_inv_tail|done].
    + rewrite filter_cons_True by exact E. split.
      * intros [= <-]. exists [], froms.
        split; [done|]. split; [constructor|done].
      * intros (pre & post & Heq & Hpre & Ha).
        destruct pre as [|y pre]; simplify_eq/=; try done.
        by apply Forall_inv in Hpre.
Qed.

(** C7: the update writes, for each field of the analysis result whose
    name the column map knows, the value (stripped when it is a string)
    into the cell of the updated row under the column the map gives for
    that name; every other cell, of that row and of every other row, is
    left as it was, and the fields the map does not know change nothing:
    the result is the same as without them.  A response address, when
    one is passed, can change the response-address cell only. *)
Theorem update_row_data_allow_list cfg normalize_nontext m df row_idx data :
  _df m = Some df →
  let df1 := write_fields cfg data row_idx df in
  update_row_data cfg normalize_nontext m row_idx data None
  = (Ok (), mkManager (Some df1) true
              (set_excel_updates (stats m) (excel_updates (stats m) + 1)))
  ∧ (∀ k v col,
       (k, v) ∈ data → columns cfg !! k = Some col →
       (∀ k' v', (k', v') ∈ data → columns cfg !! k' = Some col → v' = v) →
       cell df1 row_idx col = trimmed v)
  ∧ (∀ r c, cell df1 r c
            = if bool_decide (r = row_idx)
              then default (cell df r c) (last_write cfg data c None)
              else cell df r c)
  ∧ (∀ r c,
       r ≠ row_idx
       ∨ (∀ k v, (k, v) ∈ data → columns cfg !! k ≠ Some c) →
       cell df1 r c = cell df r c)
  ∧ df1 = write_fields cfg
            (filter (λ kv, is_Some (columns cfg !! kv.1)) data) row_idx df
  ∧ (∀ response_email,
       ∃ out df2 modified st,
         update_row_data cfg normalize_nontext m row_idx data response_email
         = (out, mkManager (Some df2) modified st)
         ∧ ∀ r c, (r, c) ≠ (row_idx, response_mail_column cfg) →
                  cell df2 r c = cell df1 r c).
Proof.
  intros Hdf df1. split_and!.
  - unfold update_row_data. by rewrite Hdf.
  - intros k v col Hin Hk Hall. unfold df1.
    rewrite cell_write_fields, bool_decide_eq_true_2 by done.
    by rewrite (last_write_only cfg data col k v).
  - intros r c. apply cell_write_fields.
  - intros r c [Hr|Hc]; unfold df1; rewrite cell_write_fields.
    + by rewrite bool_decide_eq_false_2.
    + rewrite last_write_none by done. by case_bool_decide.
  - apply write_fields_configured.
  - intros response_email. unfold update_row_data. rewrite Hdf.
    pose proof (write_response_frame cfg normalize_nontext row_idx
                  response_email df1) as Hframe.
    fold df1.
    destruct (write_response cfg normalize_nontext row_idx response_email df1)
      as [[[]|e] df2]; simpl in Hframe.
    + by eexists _, _, _, _.
    + destruct (errors_incr "excel" (stats m)); by eexists _, _, _, _.
Qed.

Lemma update_row_data_allow_list_witness :
  update_row_data sheet_cfg nontext_fails loaded 1 analysis None
  = (Ok (), mkManager (Some (write_fields sheet_cfg analysis 1 sheet)) true
              (set_excel_updates new_stats 1))
  ∧ cell (write_fields sheet_cfg analysis 1 sheet) 1 "Price USD" = VStr "120"
  ∧ cell (write_fields sheet_cfg analysis 1 sheet) 1 "vendor" = VNaN
  ∧ cell (write_fields sheet_cfg analysis 1 sheet) 1 "email" = VStr "B@X.com".
Proof.
  destruct (update_row_data_allow_list sheet_cfg nontext_fails loaded sheet 1
              analysis eq_refl) as (Hrun & Hwrite & _ & Hframe & _).
  split_and!.
  - exact Hrun.
  - apply (Hwrite "price_usd" (VStr " 120 ") "Price USD").
    + left.
    + reflexivity.
    + intros k' v' Hin Hk.
      apply elem_of_cons in Hin as [[= -> ->]|Hin]; [done|].
      apply list_elem_of_singleton in Hin as [= -> ->]. done.
  - rewrite Hframe; [reflexivity|]. right. intros k v Hin.
    apply elem_of_cons in Hin as [[= -> ->]|Hin]; [done|].
    apply list_elem_of_singleton in Hin as [= -> ->]. done.
  - rewrite Hframe; [reflexivity|]. right. intros k v Hin.
    apply elem_of_cons in Hin as [[= -> ->]|Hin]; [done|].
    apply list_elem_of_singleton in Hin as [= -> ->]. done.
Defined.

(** C8: the code does not do what the claim says.  When a non-empty
    response address is passed, the step that should compare it with the
    primary address of the row reads [self.mail_column], which
    [__init__] never assigns: [AttributeError] is raised and caught, one
    error is counted under ['excel'], and the method returns with the
    frame exactly as the field writes left it.  The response address is
    therefore never written, however much it differs from the primary
    address; the update is not counted and the table is not marked
    modified. *)
Theorem response_address_never_written cfg normalize_nontext m df row_idx
    data r n :
  _df m = Some df →
  truthy r = true →
  errors (stats m) !! "excel" = Some n →
  let df1 := write_fields cfg data row_idx df in
  update_row_data cfg normalize_nontext m row_idx data (Some r)
  = (Ok (),
     mkManager (Some df1) (_modified m)
       (set_errors (stats m) (<["excel" := (n + 1)%Z]> (errors (stats m)))))
  ∧ ((∀ k v, (k, v) ∈ data →
              columns cfg !! k ≠ Some (response_mail_column cfg)) →
     cell df1 row_idx (response_mail_column cfg)
     = cell df row_idx (response_mail_column cfg)).
Proof.
  intros Hdf Hr Hn df1. split.
  - unfold update_row_data. rewrite Hdf. fold df1.
    rewrite (write_response_raises cfg normalize_nontext row_idx r df1 Hr).
    unfold errors_incr. by rewrite Hn.
  - intros Hdata. unfold df1. rewrite cell_write_fields.
    rewrite last_write_none by done. by case_bool_decide.
Qed.

Lemma response_address_never_written_witness :
  cell sheet 1 "email" = VStr "B@X.com"
  ∧ normalize_email reply_from_other ≠ normalize_email "B@X.com"
  ∧ update_row_data sheet_cfg nontext_fails loaded 1 analysis
      (Some reply_from_other)
    = (Ok (),
       mkManager (Some (write_fields sheet_cfg analysis 1 sheet)) false
         (set_errors new_stats (<["excel" := 1%Z]> default_errors)))
  ∧ cell (write_fields sheet_cfg analysis 1 sheet) 1 "response_email" = VNaN.
Proof.
  destruct (response_address_never_written sheet_cfg nontext_fails loaded
              sheet 1 analysis reply_from_other 0 eq_refl eq_refl eq_refl)
    as [Hrun Hcell].
  split_and!; [reflexivity|by vm_compute|exact Hrun|].
  refine (eq_trans (Hcell _) eq_refl).
  intros k v Hin.
  apply elem_of_cons in Hin as [[= -> ->]|Hin]; [done|].
  apply list_elem_of_singleton in Hin as [= -> ->]. done.
Defined.

(** C9: the code does not do what the claim says.  [process_email_thread]
    asks the row matcher first, and on a loaded table that has a row the
    matcher raises [AttributeError] at its read of [self.mail_column]
    (the defect of C2); the exception leaves [process_email_thread]
    before a response address is selected and before the update applier
    is called, for whatever thread and analysis result, and the table
    and the counters are as before.  The selection loop, which is never
    reached, is the first-divergent-sender rule of the claim. *)
Theorem process_email_thread_raises cfg normalize_nontext m df original td
    analysis_results :
  _df m = Some df →
  df_index df ≠ [] →
  process_email_thread cfg normalize_nontext m original td analysis_results
  = (Raise AttributeError, m)
  ∧ (∀ found, select_response (senders td) found
              = first_divergent (senders td) (normalize_email found)).
Proof.
  intros Hdf Hrows. split.
  - unfold process_email_thread.
    rewrite (find_related_rows_loaded cfg normalize_nontext m df _ _ Hdf).
    by destruct (df_index df).
  - intros found. apply select_response_filter.
Qed.

Lemma process_email_thread_raises_witness :
  process_email_thread sheet_cfg nontext_fails loaded "a@x.com" talk analysis
  = (Raise AttributeError, loaded).
Proof.
  refine (proj1 (process_email_thread_raises sheet_cfg nontext_fails loaded
                   sheet "a@x.com" talk analysis eq_refl _)).
  done.
Defined.

End ExcelFacts.


(** * Further properties of the code *)

Module RetryMore.
Import Exceptions Retry RetryFacts.

Section Outcomes.
Context {W A : Type}.
Variable attempts : Z.
Variable func : W → result A * W.


End Outcomes.


End RetryMore.

Module ImapMore.
Import Stats Subject Imap ImapFacts Observe.

Lemma bump_processing_0 st n :
  errors st !! "processing" = Some n →
  set_errors st (<["processing" := (n + Z.of_nat 0)%Z]> (errors st)) = st.
Proof.
  intros H. unfold set_errors. rewrite Z.add_0_r, insert_id by done.
  by destruct st.
Qed.

Lemma threads_loop_skips_failed srv ids :
  ∀ threads cur h n,
    "imap_fetch" ∉ dom (errors (stats h)) →
    errors (stats h) !! "processing" = Some n →
    threads_loop srv ids threads cur h
    = (Ok (place_all (fetched srv ids) (threads, cur)),
       mkHandler (conn h)
         (set_errors (stats h)
            (<["processing" := (n + Z.of_nat (fetch_failures srv ids))%Z]>
               (errors (stats h))))).
Proof.
  induction ids as [|id ids IH]; intros threads cur [c st] n Hkey Hn;
    simpl in Hkey, Hn.
  - cbn [threads_loop fetch_failures]. simpl.
    by rewrite bump_processing_0.
  - cbn [threads_loop fetch_failures]. unfold _fetch_email_data, fetched.
    cbn [omap list_omap]. fold (fetched srv ids).
    destruct (srv_fetch srv id) as [m|e] eqn:Hf.
    + destruct (place_message threads cur m) as [threads' cur'] eqn:E.
      rewrite (IH threads' cur' (mkHandler c st) n Hkey Hn).
      unfold place_all. cbn [foldl fst snd]. by rewrite E.
    + simpl. rewrite (StatsFacts.count_and_reraise_missing _ _ _ Hkey).
      cbn [stats conn]. unfold errors_incr. rewrite Hn.
      rewrite (IH threads cur _ (n + 1)%Z); simpl.
      * rewrite insert_insert_eq. unfold set_errors. simpl.
        do 4 f_equal. lia.
      * rewrite dom_insert_L. apply elem_of_dom_2 in Hn.
        intros [H|H]%elem_of_union; [|done].
        by apply elem_of_singleton in H.
      * by rewrite lookup_insert_eq.
Qed.

(** A message whose fetch fails is skipped and counted once under
    ['processing'] (its own ['imap_fetch'] count raises [KeyError], which
    the loop catches like the fetch error); the threads returned are those
    assembled from the messages that could be fetched, in order. *)
Theorem assemble_threads_skips_failed srv ids h n :
  "imap_fetch" ∉ dom (errors (stats h)) →
  errors (stats h) !! "processing" = Some n →
  ∃ ths,
    assemble_threads srv ids h
    = (Ok ths,
       mkHandler (conn h)
         (set_errors (stats h)
            (<["processing" := (n + Z.of_nat (fetch_failures srv ids))%Z]>
               (errors (stats h)))))
    ∧ concat (messages <$> ths) = fetched srv ids
    ∧ Forall thread_ok ths
    ∧ adjacent_differ ths.
Proof.
  intros Hkey Hn. unfold assemble_threads.
  rewrite (threads_loop_skips_failed srv ids [] None h n Hkey Hn).
  pose proof (runs_of_place_all (fetched srv ids) [] _ runs_of_start)
    as (Hcat & Hok & Hadj & _).
  destruct (place_all (fetched srv ids) ([], None)) as [threads [cur|]];
    simpl in *.
  - by eexists.
  - rewrite app_nil_r in *. by eexists.
Qed.

Lemma assemble_threads_skips_failed_witness :
  ∃ ths,
    assemble_threads MoreSamples.lossy_server ["1"; "2"; "3"; "4"]
      (mkHandler true new_stats)
    = (Ok ths,
       mkHandler true
         (set_errors new_stats (<["processing" := 1%Z]> (errors new_stats))))
    ∧ (λ t, length (messages t)) <$> ths = [1; 1; 1]%nat.
Proof.
  destruct (assemble_threads_skips_failed MoreSamples.lossy_server
              ["1"; "2"; "3"; "4"] (mkHandler true new_stats) 0)
    as (ths & Hrun & _).
  - by apply not_elem_of_dom.
  - reflexivity.
  - exists ths. split; [exact Hrun|].
    vm_compute in Hrun. injection Hrun as <-. reflexivity.
Defined.



End ImapMore.

Module SearchMore.
Import Text Stats Search SearchFacts Observe.

Section Strategies.
Variable mail_uid : Command → result (string * string).
Variable parse_date : string → result string.
Variable days_ago : Z → string.
Variable extract_fields : string → result (option Reply).

Lemma fetch_and_parse_logged u log :
  _fetch_and_parse_message mail_uid extract_fields u log
  = (Ok None, log ++ [fetch_command u]).
Proof.
  unfold _fetch_and_parse_message, uid, fetch_command.
  destruct (mail_uid _) as [[typ data]|e]; [|done].
  by destruct (negb (String.eqb typ "OK")).
Qed.

Lemma fetch_first_no_message typ data0 log r :
  fetch_first mail_uid extract_fields typ data0 log = Some r → no_message r.
Proof.
  unfold fetch_first. destruct (String.eqb typ "OK" && truthy data0); [|done].
  intros [= <-]. destruct (first_token data0) as [u|e].
  - rewrite fetch_and_parse_logged. by left.
  - right. by exists e.
Qed.

Lemma search_by_message_id_no_message sent_item log :
  no_message (_search_by_message_id mail_uid extract_fields sent_item log).
Proof.
  unfold _search_by_message_id.
  destruct (negb (truthy (message_id sent_item))); [by left|].
  unfold uid. destruct (mail_uid _) as [[typ data0]|e]; [|right; by exists e].
  destruct (fetch_first _ _ _ _ _) as [r|] eqn:E; [|by left].
  by eapply fetch_first_no_message.
Qed.

Lemma search_refs_no_message refs :
  ∀ log, no_message (search_refs mail_uid extract_fields refs log).
Proof.
  induction refs as [|ref refs IH]; intros log; simpl; [by left|].
  unfold uid. destruct (mail_uid _) as [[typ data0]|e]; [|right; by exists e].
  destruct (fetch_first _ _ _ _ _) as [r|] eqn:E; [|apply IH].
  by eapply fetch_first_no_message.
Qed.

Lemma search_prefixes_no_message prefixes sent_item d :
  ∀ log,
    no_message (search_prefixes mail_uid extract_fields prefixes sent_item d log).
Proof.
  induction prefixes as [|px prefixes IH]; intros log; simpl; [by left|].
  unfold uid. destruct (mail_uid _) as [[typ data0]|e]; [|right; by exists e].
  destruct (fetch_first _ _ _ _ _) as [r|] eqn:E; [|apply IH].
  by eapply fetch_first_no_message.
Qed.

Lemma search_by_subject_and_from_no_message sent_item log :
  no_message (_search_by_subject_and_from mail_uid parse_date days_ago
                extract_fields sent_item log).
Proof.
  unfold _search_by_subject_and_from.
  destruct (parse_date (date sent_item)) as [d|e].
  - apply search_prefixes_no_message.
  - rewrite global_timedelta. simpl. right. by eexists.
Qed.

Lemma tried_one {W} name (f : W → result (option Reply) * W) rest w b :
  no_message (f w) →
  (∀ w', ∃ k w'', (k ≤ b)%nat ∧ tried rest w' k w'') →
  ∃ k w'', (k ≤ S b)%nat ∧ tried ((name, f) :: rest) w k w''.
Proof.
  intros Hno Hrest. destruct (f w) as [r w'] eqn:E.
  destruct (Hrest w') as (k & w'' & Hk & Ht).
  destruct Hno as [Hnone|[e He]]; simpl in *; subst r.
  - exists k, w''. split; [lia|]. by eapply tried_miss.
  - exists (S k), w''. split; [lia|]. by eapply tried_raise.
Qed.

(** Stopping at the first hit: the reference chain is searched in order;
    at the first ancestor whose search answers OK with data, the first
    identifier of the answer is fetched and the method returns, without
    searching the later ancestors, and what it returns is [None], the
    fetched message never being parsed. *)
Theorem search_by_references_stops_at_first_hit sent_item pre r post data0 u log :
  references_chain sent_item = pre ++ r :: post →
  Forall (λ ref, ∃ typ d, mail_uid (references_command ref) = Ok (typ, d)
                          ∧ is_hit (Ok (typ, d)) = false) pre →
  mail_uid (references_command r) = Ok ("OK", data0) →
  truthy data0 = true →
  first_token data0 = Ok u →
  _search_by_references mail_uid extract_fields sent_item log
  = (Ok None,
     log ++ (references_command <$> pre)
         ++ [references_command r; fetch_command u]).
Proof.
  intros Hchain Hpre Hr Htruthy Htok. unfold _search_by_references.
  rewrite Hchain. clear Hchain. revert log.
  induction Hpre as [|ref pre (typ & d & Hans & Hmiss) _ IH]; intros log.
  - cbn [app search_refs fmap list_fmap]. unfold uid.
    fold (references_command r). rewrite Hr. unfold fetch_first.
    rewrite Htruthy, Htok. cbn [String.eqb Ascii.eqb Bool.eqb andb].
    rewrite fetch_and_parse_logged. by rewrite <- app_assoc.
  - cbn [app search_refs]. unfold uid.
    fold (references_command ref). rewrite Hans. unfold fetch_first.
    simpl in Hmiss. rewrite Hmiss. rewrite IH.
    rewrite fmap_cons. by rewrite <- !app_assoc.
Qed.

End Strategies.

Lemma search_by_references_stops_at_first_hit_witness :
  _search_by_references MoreSamples.refs_mailbox Samples.no_fields
    MoreSamples.chained []
  = (Ok None,
     [references_command "<a>"; references_command "<b>"; fetch_command "7"]).
Proof.
  apply (search_by_references_stops_at_first_hit MoreSamples.refs_mailbox
           Samples.no_fields MoreSamples.chained ["<a>"] "<b>" ["<c>"]
           "7 9" "7" []); try reflexivity.
  constructor; [|constructor]. by exists "OK", "".
Defined.

(** With the strategies of the module the reply finder never returns a
    message and never counts a found reply: the helper that fetches a hit
    refers to the unbound name [email], swallows the [NameError] and
    returns [None], so every strategy ends in [None] or in an exception,
    and the finder returns [None] after counting at most three failures
    under ['search']. *)
Theorem find_reply_optimized_never_finds mail_uid parse_date days_ago
    extract_fields sent_item st n log :
  errors st !! "search" = Some n →
  ∃ k log',
    (k ≤ 3)%nat
    ∧ find_reply_optimized mail_uid parse_date days_ago extract_fields
        sent_item st log
      = (Ok None, after_failures k n st, log')
    ∧ replies_found (after_failures k n st) = replies_found st.
Proof.
  intros Hn. unfold find_reply_optimized, search_strategies.
  assert (∃ k log', (k ≤ 3)%nat
            ∧ tried [("message_id",
                      _search_by_message_id mail_uid extract_fields sent_item);
                     ("references",
                      _search_by_references mail_uid extract_fields sent_item);
                     ("subject_from",
                      _search_by_subject_and_from mail_uid parse_date days_ago
                        extract_fields sent_item)] log k log')
    as (k & log' & Hk & Ht).
  { apply (tried_one _ _ _ _ 2); [apply search_by_message_id_no_message|].
    intros w1.
    apply (tried_one _ _ _ _ 1); [apply search_refs_no_message|]. intros w2.
    apply (tried_one _ _ _ _ 0);
      [apply search_by_subject_and_from_no_message|].
    intros w3. exists 0%nat, w3. split; [done|constructor]. }
  exists k, log'. split; [done|]. split; [|done].
  by apply find_reply_loop_miss.
Qed.

Lemma find_reply_optimized_never_finds_witness :
  ∃ k log',
    (k ≤ 3)%nat
    ∧ find_reply_optimized Samples.one_hit Samples.strict_dates Samples.clock
        Samples.no_fields Samples.undated new_stats []
      = (Ok None, after_failures k 0 new_stats, log')
    ∧ replies_found (after_failures k 0 new_stats) = 0%Z.
Proof.
  exact (find_reply_optimized_never_finds Samples.one_hit Samples.strict_dates
           Samples.clock Samples.no_fields Samples.undated new_stats 0 []
           eq_refl).
Defined.

Lemma bytes_lstrip_spaces ws s :
  all_chars is_bspace ws = true → bytes_lstrip (ws ++ s) = bytes_lstrip s.
Proof.
  induction ws as [|c ws IH]; simpl; [done|].
  intros [Hc Hws]%andb_true_iff. rewrite Hc. by apply IH.
Qed.

Lemma take_token_app tok rest :
  all_chars (λ c, negb (is_bspace c)) tok = true →
  (rest = "" ∨ ∃ c r, rest = String c r ∧ is_bspace c = true) →
  take_token (tok ++ rest) = tok.
Proof.
  intros Htok Hrest. induction tok as [|c tok IH]; simpl in *.
  - destruct Hrest as [->|(c & r & -> & Hc)]; [done|]. simpl. by rewrite Hc.
  - apply andb_true_iff in Htok as [Hc Htok].
    apply negb_true_iff in Hc. rewrite Hc. by rewrite IH.
Qed.

(** [data[0].split()[0]]: the first blank-delimited token of the answer,
    whatever blanks surround it; an answer made of blanks only, although
    not empty, raises [IndexError]. *)
Theorem first_token_spec :
  (∀ ws c tok rest,
     all_chars is_bspace ws = true →
     all_chars (λ c, negb (is_bspace c)) (String c tok) = true →
     (rest = "" ∨ ∃ c' r, rest = String c' r ∧ is_bspace c' = true) →
     first_token (ws ++ String c tok ++ rest) = Ok (String c tok))
  ∧ (∀ ws, all_chars is_bspace ws = true →
           first_token ws = Raise IndexError).
Proof.
  split.
  - intros ws c tok rest Hws Htok Hrest. unfold first_token.
    rewrite bytes_lstrip_spaces by done.
    pose proof Htok as Htok'. simpl in Htok'.
    apply andb_true_iff in Htok' as [Hc _]. apply negb_true_iff in Hc.
    change (String c tok ++ rest)%string with (String c (tok ++ rest)).
    cbn [bytes_lstrip]. rewrite Hc.
    change (String c (tok ++ rest)) with (String c tok ++ rest)%string.
    by rewrite take_token_app.
  - intros ws Hws. unfold first_token.
    assert (bytes_lstrip ws = "") as ->; [|done].
    induction ws as [|c ws IH]; simpl in *; [done|].
    apply andb_true_iff in Hws as [Hc Hws]. rewrite Hc. by apply IH.
Qed.

Lemma first_token_spec_witness :
  first_token " 12  3 " = Ok "12" ∧ first_token "  " = Raise IndexError.
Proof.
  split.
  - apply (proj1 first_token_spec " " "1"%char "2" "  3 "); [done|done|].
    right. by eexists _, _.
  - by apply (proj2 first_token_spec "  ").
Defined.

End SearchMore.

Module SubjectMore.
Import Text TextFacts Subject SubjectFacts Observe.

(** The normalised subject is in normal form: lower case, with no white
    space at either end. *)
Theorem normalize_subject_normal_form s :
  lower (_normalize_subject s) = _normalize_subject s
  ∧ strip (_normalize_subject s) = _normalize_subject s.
Proof.
  unfold _normalize_subject. split.
  - apply lower_idem.
  - by rewrite strip_lower, strip_idem.
Qed.

Lemma lstrip_spaces ws s :
  all_chars is_space ws = true → lstrip (ws ++ s) = lstrip s.
Proof.
  induction ws as [|c ws IH]; simpl; [done|].
  intros [Hc Hws]%andb_true_iff. rewrite Hc. by apply IH.
Qed.

Lemma strip_lstrip s : strip (lstrip s) = strip s.
Proof. unfold strip. by rewrite lstrip_idem. Qed.

Lemma lower_cons_inv m c r :
  lower m = String c r →
  ∃ a m', m = String a m' ∧ char_lower a = c ∧ lower m' = r.
Proof. destruct m as [|a m']; [done|]. intros [= ? ?]. by exists a, m'. Qed.

Lemma lower_nil_inv m : lower m = "" → m = "".
Proof. by destruct m. Qed.

Ltac explode H :=
  repeat match type of H with
         | lower _ = String _ _ =>
             let a := fresh "a" in
             let m' := fresh "m" in
             let Ha := fresh "Ha" in
             apply lower_cons_inv in H as (a & m' & -> & Ha & H)
         | lower _ = "" => apply lower_nil_inv in H as ->
         end.

Lemma match_marker_any_case m rest :
  lower m ∈ lower_markers →
  match_marker markers (m ++ ":" ++ rest) = Some rest.
Proof.
  unfold lower_markers. intros Hm.
  repeat (apply elem_of_cons in Hm as [Hm|Hm]);
    [| | | |by apply elem_of_nil in Hm].
  all: explode Hm.
  all: cbv [String.append markers match_marker match_literal ci_eq].
  all: repeat match goal with
              | H : char_lower _ = _ |- _ => rewrite H; clear H
              end.
  all: reflexivity.
Qed.

(** A reply or forward prefix does not change the normalised subject: for a
    subject [s] that does not itself begin with a marker, putting one of
    the markers in any letter case, a colon and any white space in front
    of [s] gives the same normalised subject, so that such a message joins
    the thread opened by [s]. *)
Theorem reply_prefix_keeps_thread m ws s :
  lower m ∈ lower_markers →
  all_chars is_space ws = true →
  has_marker s = false →
  _normalize_subject (m ++ ":" ++ ws ++ s) = _normalize_subject s
  ∧ ∀ thread email,
      Imap.thread_subject thread = s →
      Imap.subject email = (m ++ ":" ++ ws ++ s)%string →
      Imap._is_same_thread thread email = true.
Proof.
  intros Hm Hws Hs.
  assert (_normalize_subject (m ++ ":" ++ ws ++ s) = _normalize_subject s)
    as Heq.
  { unfold has_marker in Hs. apply bool_decide_eq_false in Hs.
    assert (match_marker markers s = None) as Hnone.
    { destruct (match_marker markers s); [|done]. exfalso. apply Hs. by eexists. }
    rewrite (normalize_unmarked s Hnone).
    unfold _normalize_subject, strip_marker.
    rewrite match_marker_any_case by done.
    by rewrite lstrip_spaces, strip_lstrip. }
  split; [done|].
  intros thread email Ht He. unfold Imap._is_same_thread.
  rewrite Ht, He, Heq. by apply bool_decide_eq_true.
Qed.

Lemma reply_prefix_keeps_thread_witness :
  _normalize_subject "FWD:  Offer" = _normalize_subject "Offer".
Proof.
  refine (proj1 (reply_prefix_keeps_thread "FWD" "  " "Offer" _ eq_refl eq_refl)).
  apply elem_of_cons. right. apply elem_of_cons. left. reflexivity.
Defined.

End SubjectMore.

Module LoaderFacts.
Import Text Loader Exceptions.

Lemma find_header_Some nc headers h :
  find_header nc headers = Some h → h ∈ headers ∧ squash h = nc.
Proof.
  induction headers as [|x headers IH]; simpl; [done|].
  destruct (String.eqb (squash x) nc) eqn:E.
  - intros [= <-]. split; [left|]. by apply String.eqb_eq.
  - intros H. destruct (IH H). split; [by right|done].
Qed.

Lemma find_header_None nc headers :
  find_header nc headers = None ↔ ∀ h, h ∈ headers → squash h ≠ nc.
Proof.
  induction headers as [|x headers IH]; simpl.
  - split; [|done]. intros _ h Hh. by apply elem_of_nil in Hh.
  - destruct (String.eqb (squash x) nc) eqn:E.
    + split; [done|]. intros H. apply String.eqb_eq in E.
      exfalso. apply (H x); [left|done].
    + apply String.eqb_neq in E. rewrite IH. split.
      * intros H h [->|Hh]%elem_of_cons; [done|by apply H].
      * intros H h Hh. apply H. by right.
Qed.

(** The loop stops at the first header that matches. *)
Lemma find_header_first nc headers h :
  find_header nc headers = Some h
  ↔ ∃ pre post, headers = pre ++ h :: post
                ∧ squash h = nc
                ∧ Forall (λ x, squash x ≠ nc) pre.
Proof.
  induction headers as [|x headers IH]; simpl.
  - split; [done|]. intros (pre & post & H & _). by destruct pre.
  - destruct (String.eqb (squash x) nc) eqn:E.
    + apply String.eqb_eq in E. split.
      * intros [= <-]. exists [], headers. by split_and!.
      * intros (pre & post & Heq & Hh & Hpre).
        destruct pre as [|y pre]; simplify_eq/=; [done|].
        by apply Forall_inv in Hpre.
    + apply String.eqb_neq in E. rewrite IH. split.
      * intros (pre & post & -> & Hh & Hpre).
        exists (x :: pre), post. split_and!; [done|done|by constructor].
      * intros (pre & post & Heq & Hh & Hpre).
        destruct pre as [|y pre]; simplify_eq/=; try done.
        exists pre, post. split_and!; [done|done|by eapply Forall_inv_tail].
Qed.

Lemma resolve_Some headers config_col h :
  resolve headers config_col = Some h →
  h ∈ headers ∧ same_column h config_col.
Proof.
  unfold resolve, same_column. case_bool_decide as E.
  - by intros [= <-].
  - apply find_header_Some.
Qed.

Lemma resolve_None headers config_col :
  resolve headers config_col = None
  ↔ ∀ h, h ∈ headers → ¬ same_column h config_col.
Proof.
  unfold resolve, same_column. case_bool_decide as E.
  - split; [done|]. intros H. exfalso. by apply (H config_col).
  - apply find_header_None.
Qed.

(** How one configured column is matched against the headers of the
    file.  A header with exactly the configured name wins, wherever it
    stands.  When there is none, the result is the first header, in the
    order of the file, that equals the configured name up to letter case
    and spaces: no header before it does.  Nothing is found exactly when
    no header equals the configured name up to case and spaces. *)
Theorem resolve_header_spec headers config_col :
  (config_col ∈ headers → resolve headers config_col = Some config_col)
  ∧ (∀ h, resolve headers config_col = Some h
          ↔ (config_col ∈ headers ∧ h = config_col)
            ∨ ((config_col ∉ headers)
               ∧ ∃ pre post,
                   headers = pre ++ h :: post
                   ∧ same_column h config_col
                   ∧ Forall (λ x, ¬ same_column x config_col) pre))
  ∧ (∀ h, resolve headers config_col = Some h →
          h ∈ headers ∧ same_column h config_col)
  ∧ (resolve headers config_col = None
     ↔ ∀ h, h ∈ headers → ¬ same_column h config_col).
Proof.
  split_and!.
  - intros H. unfold resolve. by rewrite bool_decide_eq_true_2.
  - intros h. unfold resolve, same_column. case_bool_decide as E.
    + split.
      * intros [= <-]. by left.
      * by intros [[_ ->]|[? _]].
    + rewrite find_header_first. split.
      * intros H. by right.
      * by intros [[? _]|[_ H]].
  - intros h. apply resolve_Some.
  - apply resolve_None.
Qed.

Lemma resolve_header_spec_witness :
  resolve ["Name"; "E Mail"; "email"; "E-mail"] "EMAIL" = Some "E Mail".
Proof.
  apply (proj1 (proj2 (resolve_header_spec
                         ["Name"; "E Mail"; "email"; "E-mail"] "EMAIL"))).
  right. split.
  - intros H. by repeat (apply elem_of_cons in H as [H|H]; [done|]);
      apply elem_of_nil in H.
  - exists ["Name"], ["email"; "E-mail"]. split_and!; [done|by vm_compute|].
    constructor; [by vm_compute|constructor].
Defined.

Lemma resolve_columns_not_named items headers :
  ∀ acc name,
    name ∉ items.*1 →
    resolve_columns items headers acc !! name = acc !! name.
Proof.
  induction items as [|[n c] items IH]; intros acc name Hname; [done|].
  simpl in *. apply not_elem_of_cons in Hname as [Hne Hname].
  destruct (resolve headers c); rewrite IH by done; [|done].
  by rewrite lookup_insert_ne.
Qed.

Lemma resolve_columns_named items headers :
  NoDup items.*1 →
  ∀ acc name c,
    (name, c) ∈ items →
    resolve_columns items headers acc !! name
    = match resolve headers c with
      | Some h => Some h
      | None => acc !! name
      end.
Proof.
  induction items as [|[n c0] items IH]; intros Hnd acc name c Hin.
  - by apply elem_of_nil in Hin.
  - simpl in Hnd. apply NoDup_cons in Hnd as [Hn Hnd].
    apply elem_of_cons in Hin as [[= -> ->]|Hin]; simpl.
    + destruct (resolve headers c0); rewrite resolve_columns_not_named by done;
        [by rewrite lookup_insert_eq|done].
    + assert (name ≠ n) as Hne.
      { intros ->. apply Hn. apply list_elem_of_fmap. by exists (n, c). }
      destruct (resolve headers c0); rewrite (IH Hnd _ name c Hin);
        [|done].
      destruct (resolve headers c); [done|]. by rewrite lookup_insert_ne.
Qed.

Lemma resolve_columns_grows items headers :
  ∀ acc, acc ≠ ∅ → resolve_columns items headers acc ≠ ∅.
Proof.
  induction items as [|[n c] items IH]; intros acc Hacc; [done|].
  simpl. destruct (resolve headers c); [|by apply IH].
  apply IH, insert_non_empty.
Qed.

Lemma resolve_columns_empty items headers :
  resolve_columns items headers ∅ = ∅
  ↔ ∀ name c, (name, c) ∈ items → resolve headers c = None.
Proof.
  induction items as [|[n c0] items IH]; simpl.
  - split; [|done]. intros _ name c H. by apply elem_of_nil in H.
  - destruct (resolve headers c0) as [h|] eqn:E.
    + split.
      * intros H. exfalso.
        by apply (resolve_columns_grows items headers (<[n:=h]> ∅)
                    (insert_non_empty _ _ _)).
      * intros H. specialize (H n c0 ltac:(left)). congruence.
    + rewrite IH. split.
      * intros H name c [[= -> ->]|Hin]%elem_of_cons; [done|by eapply H].
      * intros H name c Hin. apply (H name c). by right.
Qed.

(** The column mapping built when the table is loaded: every configured
    name is mapped to what its column resolves to, names whose column
    matches no header are left out, and every mapped value is a header of
    the file equal to the configured column up to case and spaces.
    [ValueError] is raised exactly when no configured column matches any
    header. *)
Theorem mapped_columns_spec items headers :
  NoDup items.*1 →
  (mapped_columns items headers
   = Raise (ValueError "No matching columns found in Excel file")
   ↔ ∀ name c h, (name, c) ∈ items → h ∈ headers → ¬ same_column h c)
  ∧ ∀ real_columns,
      mapped_columns items headers = Ok real_columns →
      (∀ name c, (name, c) ∈ items →
                 real_columns !! name = resolve headers c)
      ∧ (∀ name, name ∉ items.*1 → real_columns !! name = None)
      ∧ (∀ name h, real_columns !! name = Some h →
                   h ∈ headers
                   ∧ ∃ c, (name, c) ∈ items ∧ same_column h c).
Proof.
  intros Hnd. unfold mapped_columns. split.
  - split.
    + case_bool_decide as E; [|done]. intros _ name c h Hin Hh.
      pose proof (proj1 (resolve_columns_empty items headers) E name c Hin)
        as Hres.
      by apply (proj1 (resolve_None headers c) Hres).
    + intros Hnone. rewrite bool_decide_eq_true_2; [done|].
      apply (proj2 (resolve_columns_empty items headers)). intros name c Hin.
      apply (proj2 (resolve_None headers c)).
      intros h Hh. by apply (Hnone name c h).
  - intros rc. case_bool_decide as E; [done|]. intros [= <-].
    assert (∀ name c, (name, c) ∈ items →
              resolve_columns items headers ∅ !! name = resolve headers c)
      as Hnamed.
    { intros name c Hin. rewrite (resolve_columns_named _ _ Hnd ∅ name c Hin).
      by destruct (resolve headers c). }
    split_and!.
    + exact Hnamed.
    + intros name Hname. by rewrite resolve_columns_not_named.
    + intros name h Hh.
      destruct (decide (name ∈ items.*1)) as [Hin|Hout].
      * apply list_elem_of_fmap in Hin as ([n c] & -> & Hin). simpl in *.
        rewrite (Hnamed n c Hin) in Hh.
        apply resolve_Some in Hh as [Hhead Hsame].
        split; [done|]. by exists c.
      * by rewrite resolve_columns_not_named in Hh.
Qed.

Lemma mapped_columns_spec_witness :
  ∃ real_columns,
    mapped_columns MoreSamples.mapping MoreSamples.headers = Ok real_columns
    ∧ real_columns !! "email" = Some "Email"
    ∧ real_columns !! "price_usd" = Some "Price USD"
    ∧ real_columns !! "comments" = None.
Proof.
  assert (NoDup MoreSamples.mapping.*1) as Hnd.
  { refine (bool_decide_unpack _ _). by vm_compute. }
  destruct (mapped_columns MoreSamples.mapping MoreSamples.headers)
    as [rc|e] eqn:E; [|by vm_compute in E].
  exists rc. split; [done|].
  destruct (proj2 (mapped_columns_spec MoreSamples.mapping MoreSamples.headers
                     Hnd) rc E) as (Hnamed & _ & _).
  split_and!.
  - rewrite (Hnamed "email" "email"); [done|left].
  - rewrite (Hnamed "price_usd" "Price USD"); [done|right; left].
  - rewrite (Hnamed "comments" "Comments"); [done|right; right; left].
Defined.

End LoaderFacts.

Module ExcelMore.
Import Text TextFacts Stats Excel ExcelFacts Samples.

Section WithConfig.
Variable cfg : Config.

Lemma lookup_at_set df i col v r c :
  df_cells (at_set df i col v) !! (r, c)
  = if bool_decide ((r, c) = (i, col)) then Some v else df_cells df !! (r, c).
Proof.
  unfold at_set. simpl. case_bool_decide as E.
  - rewrite E. by rewrite lookup_insert_eq.
  - by rewrite lookup_insert_ne.
Qed.

Lemma lookup_write_fields data row_idx :
  ∀ df r c,
    df_cells (write_fields cfg data row_idx df) !! (r, c)
    = if bool_decide (r = row_idx)
      then match last_write cfg data c None with
           | Some v => Some v
           | None => df_cells df !! (r, c)
           end
      else df_cells df !! (r, c).
Proof.
  induction data as [|[key value] data IH]; intros df r c; simpl.
  - by case_bool_decide.
  - destruct (columns cfg !! key) as [col|] eqn:Hkey.
    + rewrite IH, lookup_at_set.
      rewrite (last_write_acc cfg data c (Some _)).
      destruct (last_write cfg data c None);
        repeat case_bool_decide; simplify_eq/=; done.
    + rewrite IH. by rewrite (bool_decide_eq_false_2 (None = Some c)).
Qed.

Lemma index_write_fields data row_idx :
  ∀ df, row_idx ∈ df_index df →
        df_index (write_fields cfg data row_idx df) = df_index df.
Proof.
  induction data as [|[key value] data IH]; intros df Hin; [done|].
  simpl. destruct (columns cfg !! key) as [col|]; [|by apply IH].
  rewrite IH; simpl; by rewrite bool_decide_eq_true_2.
Qed.

Lemma columns_write_fields data row_idx :
  ∀ df,
    (∀ k v col, (k, v) ∈ data → columns cfg !! k = Some col →
                col ∈ df_columns df) →
    df_columns (write_fields cfg data row_idx df) = df_columns df.
Proof.
  induction data as [|[key value] data IH]; intros df Hin; [done|].
  simpl. destruct (columns cfg !! key) as [col|] eqn:Hk.
  - assert (col ∈ df_columns df) as Hcol by (apply (Hin key value); [left|done]).
    rewrite IH; simpl; rewrite bool_decide_eq_true_2 by done; [done|].
    intros k v c Hkv Hc. apply (Hin k v c); [by right|done].
  - apply IH. intros k v c Hkv Hc. apply (Hin k v c); [by right|done].
Qed.

Lemma index_grows data row_idx :
  ∀ df i, i ∈ df_index df → i ∈ df_index (write_fields cfg data row_idx df).
Proof.
  induction data as [|[key value] data IH]; intros df i Hin; [done|].
  simpl. destruct (columns cfg !! key) as [col|]; [|by apply IH].
  apply IH. simpl. case_bool_decide; [done|]. apply elem_of_app. by left.
Qed.

Lemma columns_grow data row_idx :
  ∀ df c, c ∈ df_columns df →
          c ∈ df_columns (write_fields cfg data row_idx df).
Proof.
  induction data as [|[key value] data IH]; intros df c Hin; [done|].
  simpl. destruct (columns cfg !! key) as [col|]; [|by apply IH].
  apply IH. simpl. case_bool_decide; [done|]. apply elem_of_app. by left.
Qed.

Lemma written_in_frame data row_idx :
  ∀ df k v col,
    (k, v) ∈ data → columns cfg !! k = Some col →
    row_idx ∈ df_index (write_fields cfg data row_idx df)
    ∧ col ∈ df_columns (write_fields cfg data row_idx df).
Proof.
  induction data as [|[key value] data IH]; intros df k v col Hin Hk.
  - by apply elem_of_nil in Hin.
  - simpl. apply elem_of_cons in Hin as [[= <- <-]|Hin].
    + rewrite Hk. split.
      * apply index_grows. simpl. case_bool_decide; [done|].
        apply elem_of_app. right. left.
      * apply columns_grow. simpl. case_bool_decide; [done|].
        apply elem_of_app. right. left.
    + destruct (columns cfg !! key); by eapply IH.
Qed.

Lemma write_fields_nothing data row_idx :
  (∀ k v, (k, v) ∈ data → columns cfg !! k = None) →
  ∀ df, write_fields cfg data row_idx df = df.
Proof.
  induction data as [|[key value] data IH]; intros Hnone df; [done|].
  simpl. rewrite (Hnone key value) by left. apply IH.
  intros k v Hin. apply (Hnone k v). by right.
Qed.

Lemma write_fields_twice data row_idx df :
  write_fields cfg data row_idx (write_fields cfg data row_idx df)
  = write_fields cfg data row_idx df.
Proof.
  destruct (decide (Forall (λ kv, columns cfg !! kv.1 = None) data))
    as [Hnone|Hsome].
  - rewrite Forall_forall in Hnone.
    rewrite !write_fields_nothing; [done|..];
      intros k v Hin; apply (Hnone (k, v) Hin).
  - apply not_Forall_Exists in Hsome; [|apply _].
    apply Exists_exists in Hsome as ([k v] & Hin & Hk). simpl in Hk.
    destruct (columns cfg !! k) as [col|] eqn:Ecol; [clear Hk|done].
    set (df1 := write_fields cfg data row_idx df).
    destruct (written_in_frame data row_idx df k v col Hin Ecol) as [Hrow _].
    fold df1 in Hrow.
    assert (df_index (write_fields cfg data row_idx df1) = df_index df1)
      as Hi by (by apply index_write_fields).
    assert (df_columns (write_fields cfg data row_idx df1) = df_columns df1)
      as Hc.
    { apply columns_write_fields. intros k' v' col' Hin' Hk'.
      by apply (written_in_frame data row_idx df k' v' col'). }
    assert (df_cells (write_fields cfg data row_idx df1) = df_cells df1) as Hm.
    { apply map_eq. intros [r c]. rewrite lookup_write_fields.
      case_bool_decide as Hr; [|done]. subst r.
      destruct (last_write cfg data c None) as [x|] eqn:El; [|done].
      unfold df1. rewrite lookup_write_fields, bool_decide_eq_true_2 by done.
      by rewrite El. }
    destruct (write_fields cfg data row_idx df1), df1; simpl in *.
    by subst.
Qed.

End WithConfig.

(** Applying the same analysis result to the same row a second time leaves
    the table exactly as the first application left it: same labels, same
    columns, same cells; only the update counter grows. *)
Theorem update_row_data_twice cfg normalize_nontext m df row_idx data :
  _df m = Some df →
  let m1 := (update_row_data cfg normalize_nontext m row_idx data None).2 in
  let m2 := (update_row_data cfg normalize_nontext m1 row_idx data None).2 in
  _df m1 = Some (write_fields cfg data row_idx df)
  ∧ _df m2 = _df m1
  ∧ _modified m2 = true
  ∧ excel_updates (stats m2) = (excel_updates (stats m) + 2)%Z.
Proof.
  intros Hdf. unfold update_row_data. rewrite Hdf. simpl.
  rewrite write_fields_twice. split_and!; [done|done|done|lia].
Qed.

Lemma update_row_data_twice_witness :
  _df (update_row_data sheet_cfg nontext_fails
         (update_row_data sheet_cfg nontext_fails loaded 1 analysis None).2
         1 analysis None).2
  = _df (update_row_data sheet_cfg nontext_fails loaded 1 analysis None).2.
Proof.
  exact (proj1 (proj2 (update_row_data_twice sheet_cfg nontext_fails loaded
                         sheet 1 analysis eq_refl))).
Defined.

End ExcelMore.

Module SaverFacts.
Import Text Stats Exceptions Excel ExcelFacts ExcelMore Observe Saver Samples.

Lemma ext_scan_app a :
  ∀ st b, ext_scan st (a +:+ b) = ext_scan (ext_scan st a) b.
Proof.
  induction a as [|c a IH]; intros st b; [done|].
  change (String c a +:+ b) with (String c (a +:+ b)).
  cbn [ext_scan]. apply IH.
Qed.

Lemma stamp_char_step c st :
  is_stamp_char c = true → (ext_step st c).1 = true.
Proof.
  destruct c as [[] [] [] [] [] [] [] []]; vm_compute; try done.
Qed.

Lemma stamp_chars_seen s :
  ∀ st, all_chars is_stamp_char s = true → st.1 = true →
        (ext_scan st s).1 = true.
Proof.
  induction s as [|c s IH]; intros st Hall Hst; [done|].
  cbn [all_chars] in Hall. apply andb_true_iff in Hall as [Hc Hs].
  cbn [ext_scan]. apply IH; [done|]. by apply stamp_char_step.
Qed.

Lemma stamp_seen stamp st :
  stamp ≠ "" → all_chars is_stamp_char stamp = true →
  (ext_scan st stamp).1 = true.
Proof.
  destruct stamp as [|c s]; [done|]. intros _ Hall.
  cbn [all_chars] in Hall. apply andb_true_iff in Hall as [Hc Hs].
  cbn [ext_scan]. apply stamp_chars_seen; [done|]. by apply stamp_char_step.
Qed.

(** The backup path has the extension [.bak], whatever the path of the
    table, and the writer refuses it. *)
Lemma backup_path_ext scfg stamp :
  stamp ≠ "" → all_chars is_stamp_char stamp = true →
  splitext_ext (backup_path scfg stamp) = ".bak".
Proof.
  intros Hne Hall. unfold splitext_ext, backup_path.
  rewrite !ext_scan_app.
  pose proof (stamp_seen stamp (ext_scan (ext_scan (false, None)
                                            (file_path scfg)) ".") Hne Hall)
    as Hseen.
  destruct (ext_scan (ext_scan (ext_scan (false, None) (file_path scfg)) ".")
              stamp) as [seen ext].
  simpl in Hseen. subst seen. reflexivity.
Qed.

(** Saving.  A table that is not marked modified is not written at all.
    With backups disabled, a modified table is written to the table file
    and the mark is cleared, so that saving again at once writes
    nothing.  With backups enabled nothing is ever saved: the backup is
    written first, under the path of the table followed by a time stamp
    and [.bak], an extension that the writer refuses with [ValueError]
    before it writes; the error leaves [save_excel], the table file is
    not written and the mark stays.  Whenever [save_excel] raises, the
    manager is as before, still marked modified, and the table file has
    not been written. *)
Theorem save_excel_spec scfg to_excel stamp m disk :
  (_modified m = false →
   save_excel scfg to_excel stamp m disk = (Ok (), m, disk))
  ∧ (∀ df, _modified m = true → _df m = Some df →
           backup_enabled scfg = false →
           check_extension (splitext_ext (file_path scfg)) = Ok () →
           to_excel (file_path scfg) df = Ok () →
           let m' := mkManager (Some df) false (stats m) in
           let disk' := disk ++ [(file_path scfg, df)] in
           save_excel scfg to_excel stamp m disk = (Ok (), m', disk')
           ∧ ∀ stamp', save_excel scfg to_excel stamp' m' disk'
                       = (Ok (), m', disk'))
  ∧ (∀ df, _modified m = true → _df m = Some df →
           backup_enabled scfg = true →
           stamp ≠ "" → all_chars is_stamp_char stamp = true →
           save_excel scfg to_excel stamp m disk
           = (Raise (ValueError
                       "Invalid extension for engine 'openpyxl': 'bak'"),
              m, disk))
  ∧ (∀ out m' disk',
       save_excel scfg to_excel stamp m disk = (out, m', disk') →
       (∃ e, out = Raise e) →
       m' = m ∧ _modified m' = true
       ∧ (disk' = disk
          ∨ ∃ df, backup_enabled scfg = true
                  ∧ disk' = disk ++ [(backup_path scfg stamp, df)])).
Proof.
  unfold save_excel. split_and!.
  - by intros ->.
  - intros df Hmod Hdf Hoff Hext Hmain. rewrite Hmod, Hdf, Hoff. simpl.
    unfold write_frame. by rewrite Hext, Hmain.
  - intros df Hmod Hdf Hon Hne Hall. rewrite Hmod, Hdf, Hon. simpl.
    unfold write_frame. by rewrite backup_path_ext.
  - intros out m' disk' Hrun [e ->].
    destruct (_modified m) eqn:Hmod; simpl in Hrun; [|done].
    unfold write_frame in Hrun.
    destruct (_df m) as [df0|], (backup_enabled scfg); simpl in Hrun.
    + destruct (check_extension (splitext_ext (backup_path scfg stamp)));
        simpl in Hrun; [|simplify_eq; by split_and!; [..|left]].
      destruct (to_excel (backup_path scfg stamp) df0); simpl in Hrun;
        [|simplify_eq; by split_and!; [..|left]].
      destruct (check_extension (splitext_ext (file_path scfg)));
        simpl in Hrun;
        [|simplify_eq; split_and!; [done..|]; right; by exists df0].
      destruct (to_excel (file_path scfg) df0); simplify_eq.
      split_and!; [done..|]. right. by exists df0.
    + destruct (check_extension (splitext_ext (file_path scfg)));
        simpl in Hrun; [|simplify_eq; by split_and!; [..|left]].
      destruct (to_excel (file_path scfg) df0); simplify_eq.
      split_and!; [done..|]. by left.
    + simplify_eq. split_and!; [done..|]. by left.
    + simplify_eq. split_and!; [done..|]. by left.
Qed.

Lemma save_excel_spec_witness :
  save_excel MoreSamples.save_cfg MoreSamples.writable "20261103_101500"
    (mkManager (Some sheet) true new_stats) []
  = (Raise (ValueError "Invalid extension for engine 'openpyxl': 'bak'"),
     mkManager (Some sheet) true new_stats, [])
  ∧ save_excel MoreSamples.plain_cfg MoreSamples.writable "20261103_101500"
      (mkManager (Some sheet) true new_stats) []
    = (Ok (), mkManager (Some sheet) false new_stats, [("table.xlsx", sheet)]).
Proof.
  split.
  - exact (proj1 (proj2 (proj2 (save_excel_spec MoreSamples.save_cfg
                                  MoreSamples.writable "20261103_101500"
                                  (mkManager (Some sheet) true new_stats) [])))
             sheet eq_refl eq_refl eq_refl ltac:(done) eq_refl).
  - exact (proj1 (proj1 (proj2 (save_excel_spec MoreSamples.plain_cfg
                                  MoreSamples.writable "20261103_101500"
                                  (mkManager (Some sheet) true new_stats) []))
                    sheet eq_refl eq_refl eq_refl eq_refl eq_refl)).
Defined.

(** An update whose response-address step raises keeps the field values
    it has already written in the table but does not mark the table
    modified and does not count an update; it counts one error under
    ['excel'] and returns normally.  If the table was not marked modified
    before, a following save therefore writes nothing, and the values
    written stay in memory only. *)
Theorem failed_update_is_not_saved cfg normalize_nontext scfg to_excel stamp
    m df row_idx data r e n disk :
  _df m = Some df →
  (write_response cfg normalize_nontext row_idx (Some r)
     (write_fields cfg data row_idx df)).1 = Raise e →
  errors (stats m) !! "excel" = Some n →
  let m' := mkManager (Some (write_fields cfg data row_idx df)) (_modified m)
              (set_errors (stats m) (<["excel" := (n + 1)%Z]> (errors (stats m))))
  in
  update_row_data cfg normalize_nontext m row_idx data (Some r) = (Ok (), m')
  ∧ excel_updates (stats m') = excel_updates (stats m)
  ∧ (_modified m = false →
     save_excel scfg to_excel stamp m' disk = (Ok (), m', disk)).
Proof.
  intros Hdf Hfail Hn m'. split_and!.
  - unfold update_row_data. rewrite Hdf.
    assert ((write_response cfg normalize_nontext row_idx (Some r)
               (write_fields cfg data row_idx df)).2
            = write_fields cfg data row_idx df) as Hsame.
    { revert Hfail. unfold write_response.
      repeat (case_match; simpl; try done). }
    destruct (write_response cfg normalize_nontext row_idx (Some r)
                (write_fields cfg data row_idx df)) as [out df'].
    simpl in *. subst out df'. unfold errors_incr. by rewrite Hn.
  - done.
  - intros Hmod. unfold save_excel. simpl. by rewrite Hmod.
Qed.

Lemma failed_update_is_not_saved_witness :
  update_row_data sheet_cfg nontext_fails loaded 0 analysis (Some "b@y.com")
  = (Ok (),
     mkManager (Some (write_fields sheet_cfg analysis 0 sheet)) false
       (set_errors new_stats (<["excel" := 1%Z]> (errors new_stats)))).
Proof.
  exact (proj1 (failed_update_is_not_saved sheet_cfg nontext_fails
                  MoreSamples.save_cfg MoreSamples.writable "s" loaded sheet 0
                  analysis "b@y.com" AttributeError 0 []
                  eq_refl eq_refl eq_refl)).
Defined.

End SaverFacts.

Module LMStudioFacts.
Import Text Stats Excel Exceptions LMStudio Observe.

(** *** Locating the JSON object *)

Lemma find_char_app c pre rest :
  all_chars (λ x, negb (Ascii.eqb x c)) pre = true →
  find_char c (pre ++ String c rest) = Some (String.length pre).
Proof.
  induction pre as [|x pre IH]; simpl.
  - intros _. by rewrite Ascii.eqb_refl.
  - intros [Hx Hpre]%andb_true_iff. apply negb_true_iff in Hx. rewrite Hx.
    by rewrite IH.
Qed.

Lemma find_char_none c s :
  all_chars (λ x, negb (Ascii.eqb x c)) s = true → find_char c s = None.
Proof.
  induction s as [|x s IH]; simpl; [done|].
  intros [Hx Hs]%andb_true_iff. apply negb_true_iff in Hx. rewrite Hx.
  by rewrite IH.
Qed.

Lemma rfind_char_none c s :
  all_chars (λ x, negb (Ascii.eqb x c)) s = true → rfind_char c s = None.
Proof.
  induction s as [|x s IH]; simpl; [done|].
  intros [Hx Hs]%andb_true_iff. apply negb_true_iff in Hx.
  by rewrite IH, Hx.
Qed.

Lemma rfind_char_app c pre post :
  all_chars (λ x, negb (Ascii.eqb x c)) post = true →
  rfind_char c (pre ++ String c post) = Some (String.length pre).
Proof.
  intros Hpost. induction pre as [|x pre IH]; simpl.
  - by rewrite rfind_char_none, Ascii.eqb_refl.
  - by rewrite IH.
Qed.

Lemma length_app_string (a b : string) :
  String.length (a ++ b) = (String.length a + String.length b)%nat.
Proof. induction a as [|c a IH]; simpl; [done|]. by rewrite IH. Qed.

Lemma substring_skip (a b : string) n :
  String.substring (String.length a) n (a ++ b) = String.substring 0 n b.
Proof. induction a as [|c a IH]; simpl; [done|]. apply IH. Qed.

Lemma substring_prefix (a b : string) :
  String.substring 0 (String.length a) (a ++ b) = a.
Proof.
  induction a as [|c a IH]; simpl.
  - by destruct b.
  - by rewrite IH.
Qed.

Lemma app_string_assoc (a b c : string) : ((a ++ b) ++ c = a ++ (b ++ c))%string.
Proof.
  induction a as [|x a IH]; [done|].
  change (String x ((a ++ b) ++ c) = String x (a ++ (b ++ c)))%string.
  by rewrite IH.
Qed.

(** The JSON text handed to the parser is the part of the answer from its
    first opening brace to its last closing brace, both included, whatever
    surrounds it; an answer without an opening or without a closing brace
    raises [ValueError]. *)
Theorem extract_json_spec :
  (∀ pre mid post,
     all_chars (λ x, negb (Ascii.eqb x "{")) pre = true →
     all_chars (λ x, negb (Ascii.eqb x "}")) post = true →
     extract_json (pre ++ "{" ++ mid ++ "}" ++ post)
     = Ok ("{" ++ mid ++ "}")%string)
  ∧ (∀ content,
       all_chars (λ x, negb (Ascii.eqb x "{")) content = true
       ∨ all_chars (λ x, negb (Ascii.eqb x "}")) content = true →
       extract_json content
       = Raise (ValueError "No JSON found in response")).
Proof.
  split.
  - intros pre mid post Hpre Hpost.
    set (content := (pre ++ "{" ++ mid ++ "}" ++ post)%string).
    assert (find_char "{" content = Some (String.length pre)) as Hf
      by exact (find_char_app _ _ _ Hpre).
    assert (rfind_char "}" content
            = Some (String.length pre + S (String.length mid))%nat) as Hr.
    { unfold content.
      replace (pre ++ "{" ++ mid ++ "}" ++ post)%string
        with ((pre ++ String "{" mid) ++ String "}" post)%string
        by (by rewrite app_string_assoc).
      rewrite (rfind_char_app _ _ _ Hpost).
      by rewrite length_app_string. }
    unfold extract_json, py_find, py_rfind. rewrite Hf, Hr.
    rewrite (proj2 (Z.eqb_neq (Z.of_nat (String.length pre)) (-1))) by lia.
    rewrite (proj2 (Z.eqb_neq
                      (Z.of_nat (String.length pre + S (String.length mid)) + 1)
                      0)) by lia.
    cbn [orb]. unfold slice. f_equal. rewrite Nat2Z.id.
    replace (Z.to_nat (Z.of_nat (String.length pre + S (String.length mid)) + 1
                       - Z.of_nat (String.length pre)))
      with (String.length ("{" ++ mid ++ "}")%string)
      by (change ("{" ++ mid ++ "}")%string with (String "{" (mid ++ "}"));
          simpl String.length; rewrite length_app_string; simpl; lia).
    unfold content. rewrite substring_skip.
    replace ("{" ++ mid ++ "}" ++ post)%string
      with (("{" ++ mid ++ "}") ++ post)%string
      by (by rewrite !app_string_assoc).
    apply substring_prefix.
  - intros content [H|H]; unfold extract_json, py_find, py_rfind.
    + by rewrite (find_char_none _ _ H).
    + rewrite (rfind_char_none _ _ H). simpl.
      by rewrite orb_true_r.
Qed.

Lemma extract_json_spec_witness :
  extract_json MoreSamples.answer = Ok "{price_usd: 120 USD}".
Proof.
  exact (proj1 extract_json_spec "Here: " "price_usd: 120 USD" " done"
           eq_refl eq_refl).
Defined.

Section WithService.
Variable re_match : list item → string → option string.
Variable api_content : string → result string.
Variable json_loads : string → option (list (string * Value)).
Variable create_prompt : string → string.
Variable exn_text : exn → string.

Lemma extract_prices_raises text :
  _extract_prices re_match text
  = Raise (re_error "look-behind requires fixed-width pattern").
Proof. reflexivity. Qed.

Lemma analyze_email_uncounted email_text c :
  errors (stats c) !! "analysis" = None →
  analyze_email re_match api_content json_loads create_prompt exn_text
    email_text c
  = (Raise (KeyError "analysis"),
     mkClient (mkStats (emails_processed (stats c)) (replies_found (stats c))
                 (emails_matched (stats c)) (lm_studio_calls (stats c) + 1)
                 (lm_studio_errors (stats c)) (excel_updates (stats c))
                 (errors (stats c))) (posted c),
     []).
Proof.
  intros Hkey. unfold analyze_email, analyze_try.
  rewrite extract_prices_raises. unfold errors_incr. simpl. by rewrite Hkey.
Qed.

(** The direct price extraction never returns: its second pattern has a
    look-behind of variable width, which [re] refuses to compile, so
    every call raises [re.error], whatever the text. *)
Theorem extract_prices_always_raises text :
  compile casino_pattern = Ok ()
  ∧ _extract_prices re_match text
    = Raise (re_error "look-behind requires fixed-width pattern").
Proof. split; reflexivity. Qed.

(** As a consequence [analyze_email] never sends a request: it counts the
    call, fails in the price extraction, and then either returns the
    error dict with its four empty fields, when ['analysis'] is a key of
    the error counters, or raises [KeyError] for that key, as with the
    counters of a fresh [ProcessingStats]. *)
Theorem analyze_email_never_requests email_text c :
  let counted :=
    mkStats (emails_processed (stats c)) (replies_found (stats c))
      (emails_matched (stats c)) (lm_studio_calls (stats c) + 1)
      (lm_studio_errors (stats c)) (excel_updates (stats c))
      (errors (stats c)) in
  let e := re_error "look-behind requires fixed-width pattern" in
  (errors (stats c) !! "analysis" = None →
   analyze_email re_match api_content json_loads create_prompt exn_text
     email_text c
   = (Raise (KeyError "analysis"), mkClient counted (posted c), []))
  ∧ (∀ n, errors (stats c) !! "analysis" = Some n →
          analyze_email re_match api_content json_loads create_prompt exn_text
            email_text c
          = (Ok (error_result exn_text e),
             mkClient (set_errors counted
                         (<["analysis" := (n + 1)%Z]> (errors (stats c))))
                      (posted c),
             [])).
Proof.
  intros counted e. unfold analyze_email, analyze_try.
  rewrite extract_prices_raises. unfold errors_incr. simpl. split.
  - by intros ->.
  - by intros n ->.
Qed.

(** *** The request *)

Lemma dict_get_set k v d k' :
  dict_get k' (dict_set k v d)
  = if String.eqb k k' then Some v else dict_get k' d.
Proof.
  induction d as [|[k0 v0] d IH]; simpl.
  - done.
  - destruct (String.eqb k0 k) eqn:E0; simpl.
    + apply String.eqb_eq in E0 as ->. by destruct (String.eqb k k').
    + destruct (String.eqb k0 k') eqn:E1.
      * apply String.eqb_eq in E1 as ->.
        rewrite String.eqb_sym in E0. by rewrite E0.
      * apply IH.
Qed.

Lemma dict_has_get k d : dict_has k d = true ↔ is_Some (dict_get k d).
Proof.
  unfold dict_has. rewrite bool_decide_eq_true.
  induction d as [|[k0 v0] d IH]; simpl.
  - split; [by intros ?%elem_of_nil|by intros [? ?]].
  - rewrite elem_of_cons. destruct (String.eqb k0 k) eqn:E.
    + apply String.eqb_eq in E as ->. split; [by eexists|by left].
    + apply String.eqb_neq in E. rewrite <- IH. split.
      * by intros [->|?].
      * by right.
Qed.

Lemma dict_get_clean_price f d k :
  dict_get k (clean_price f d)
  = if String.eqb f k
    then (λ v, VStr (digits_only (py_str v))) <$> dict_get f d
    else dict_get k d.
Proof.
  unfold clean_price. destruct (dict_get f d) as [v|] eqn:E.
  - rewrite dict_get_set. by destruct (String.eqb f k).
  - destruct (String.eqb f k) eqn:Ek; [|done].
    apply String.eqb_eq in Ek as <-. by rewrite E.
Qed.

Lemma dict_get_fill fields :
  ∀ d k,
    dict_get k (fill_required fields d)
    = match dict_get k d with
      | Some v => Some v
      | None => if bool_decide (k ∈ fields) then Some (VStr "") else None
      end.
Proof.
  induction fields as [|f fields IH]; intros d k; simpl.
  - by destruct (dict_get k d).
  - rewrite IH. destruct (dict_has f d) eqn:Hf.
    + destruct (dict_get k d) as [v|] eqn:Ek; [done|].
      destruct (decide (k = f)) as [->|Hne].
      * apply dict_has_get in Hf as [v Hv]. congruence.
      * rewrite (bool_decide_ext (k ∈ f :: fields) (k ∈ fields)); [done|].
        rewrite elem_of_cons. by split; [intros [?|?]|right].
    + rewrite dict_get_set. destruct (String.eqb f k) eqn:Ek.
      * apply String.eqb_eq in Ek as <-.
        assert (dict_get f d = None) as ->.
        { destruct (dict_get f d) eqn:E; [|done].
          assert (dict_has f d = true) by (apply dict_has_get; by eexists).
          congruence. }
        rewrite bool_decide_eq_true_2; [done|left].
      * apply String.eqb_neq in Ek.
        destruct (dict_get k d); [done|].
        rewrite (bool_decide_ext (k ∈ f :: fields) (k ∈ fields)); [done|].
        rewrite elem_of_cons. split; [by intros [?|?]|by right].
Qed.

Lemma digits_only_digits s : all_chars is_digit (digits_only s) = true.
Proof.
  induction s as [|c s IH]; simpl; [done|].
  destruct (is_digit c) eqn:E; [|done]. simpl. by rewrite E.
Qed.

(** When the service answers with a JSON object, the request returns it
    with the four required fields present (those missing are added,
    empty), with the two price fields turned into strings of digits only,
    and with every other field of the object as it was; no counter
    changes. *)
Theorem request_body_success prompt c content json_str parsed :
  api_content prompt = Ok content →
  extract_json content = Ok json_str →
  json_loads json_str = Some parsed →
  ∃ out,
    request_body api_content json_loads prompt c
    = (Ok (Some out), mkClient (stats c) (posted c ++ [prompt]))
    ∧ (∀ f, f ∈ required_fields → is_Some (dict_get f out))
    ∧ (∀ f, f ∈ ["price_usd"; "price_usd_casino"] →
            ∃ d, dict_get f out = Some (VStr d)
                 ∧ all_chars is_digit d = true)
    ∧ (∀ k v, k ∉ ["price_usd"; "price_usd_casino"] →
              dict_get k parsed = Some v → dict_get k out = Some v).
Proof.
  intros Hc Hj Hp. eexists. unfold request_body, parse_answer.
  rewrite Hc, Hj, Hp. split; [done|].
  split_and!.
  - intros f Hf. rewrite dict_get_fill.
    destruct (dict_get f _); [by eexists|].
    rewrite bool_decide_eq_true_2 by done. by eexists.
  - intros f Hf. rewrite dict_get_fill, !dict_get_clean_price.
    apply elem_of_cons in Hf as [->|Hf];
      [|apply list_elem_of_singleton in Hf as ->]; simpl.
    + destruct (dict_get "price_usd" parsed); simpl;
        eexists; (split; [done|]); [apply digits_only_digits|done].
    + destruct (dict_get "price_usd_casino" parsed); simpl;
        eexists; (split; [done|]); [apply digits_only_digits|done].
  - intros k v Hk Hv. rewrite dict_get_fill, !dict_get_clean_price.
    apply not_elem_of_cons in Hk as [Hk1 Hk2].
    apply not_elem_of_cons in Hk2 as [Hk2 _].
    rewrite (proj2 (String.eqb_neq _ _)) by done.
    rewrite (proj2 (String.eqb_neq _ _)) by done.
    by rewrite Hv.
Qed.

(** With the counters of a fresh [ProcessingStats] a failed request never
    returns [None] and never passes on the error of the service: every
    failure, a malformed JSON text included, ends in [KeyError] for the key
    ['api'] with no counter changed, and the decorated request raises it
    after three tries and the sleeps 1 and 2. *)
Theorem request_body_failure prompt c :
  "api" ∉ dom (errors (stats c)) →
  "json_parse" ∉ dom (errors (stats c)) →
  let c' := mkClient (stats c) (posted c ++ [prompt]) in
  (∃ out, request_body api_content json_loads prompt c = (Ok (Some out), c'))
  ∨ (request_body api_content json_loads prompt c
     = (Raise (KeyError "api"), c')
     ∧ _make_api_request api_content json_loads prompt c
       = (Raise (KeyError "api"),
          mkClient (stats c) (posted c ++ [prompt; prompt; prompt]),
          [1%Q; (1 * 2)%Q])).
Proof.
  intros Hapi Hjson c'.
  assert (∀ p, request_body api_content json_loads prompt
                 (mkClient (stats c) p)
               = (Raise (KeyError "api"), mkClient (stats c) (p ++ [prompt]))
               ∨ ∃ out, request_body api_content json_loads prompt
                          (mkClient (stats c) p)
                        = (Ok (Some out), mkClient (stats c) (p ++ [prompt])))
    as Hbody.
  { intros p. unfold request_body, parse_answer. simpl.
    destruct (api_content prompt) as [content|e].
    - destruct (extract_json content) as [js|e].
      + destruct (json_loads js) as [parsed|].
        * right. by eexists.
        * left. rewrite (StatsFacts.errors_incr_missing _ _ Hjson).
          by rewrite (StatsFacts.count_and_reraise_missing _ _ _ Hapi).
      + left. by rewrite (StatsFacts.count_and_reraise_missing _ _ _ Hapi).
    - left. by rewrite (StatsFacts.count_and_reraise_missing _ _ _ Hapi). }
  assert (∀ p q out,
            request_body api_content json_loads prompt (mkClient (stats c) p)
            = (Ok (Some out), mkClient (stats c) (p ++ [prompt])) →
            request_body api_content json_loads prompt (mkClient (stats c) q)
            = (Ok (Some out), mkClient (stats c) (q ++ [prompt]))) as Hsame.
  { intros p q out. unfold request_body, parse_answer. simpl.
    destruct (api_content prompt) as [content|e].
    - destruct (extract_json content) as [js|e].
      + destruct (json_loads js) as [parsed|].
        * by intros [= ->].
        * destruct (errors_incr "json_parse" (stats c)); [done|].
          by destruct (count_and_reraise "api" e (stats c)).
      + by destruct (count_and_reraise "api" e (stats c)).
    - by destruct (count_and_reraise "api" e (stats c)). }
  destruct c as [st p0]. simpl in *.
  destruct (Hbody p0) as [H0|[out H0]]; [|left; by exists out].
  right. split; [done|].
  destruct (Hbody (p0 ++ [prompt])) as [H1|[out H1]];
    [|rewrite (Hsame _ p0 out H1) in H0; done].
  destruct (Hbody ((p0 ++ [prompt]) ++ [prompt])) as [H2|[out H2]];
    [|rewrite (Hsame _ p0 out H2) in H0; done].
  unfold _make_api_request, Retry.retry_with_backoff, Retry.wrapper.
  change (seqZ 0 3) with [0; 1; 2]%Z. cbn [Retry.wrapper_loop].
  rewrite H0. simpl. rewrite H1. simpl. rewrite H2. simpl.
  by rewrite <- !app_assoc.
Qed.

End WithService.

Lemma analyze_email_never_requests_witness :
  analyze_email MoreSamples.no_match (λ _, Ok MoreSamples.answer)
    MoreSamples.knows_answer MoreSamples.echo_prompt MoreSamples.class_name
    "price usd 120" (mkClient new_stats [])
  = (Raise (KeyError "analysis"),
     mkClient (mkStats 0 0 0 1 0 0 default_errors) [], []).
Proof.
  exact (proj1 (analyze_email_never_requests MoreSamples.no_match
                  (λ _, Ok MoreSamples.answer) MoreSamples.knows_answer
                  MoreSamples.echo_prompt MoreSamples.class_name
                  "price usd 120" (mkClient new_stats [])) eq_refl).
Defined.

Lemma request_body_success_witness :
  ∃ out,
    request_body (λ _, Ok MoreSamples.answer) MoreSamples.knows_answer "p"
      (mkClient new_stats [])
    = (Ok (Some out), mkClient new_stats ["p"])
    ∧ dict_get "price_usd" out = Some (VStr "120")
    ∧ dict_get "comments" out = Some (VStr "").
Proof.
  destruct (request_body_success (λ _, Ok MoreSamples.answer)
              MoreSamples.knows_answer "p" (mkClient new_stats [])
              MoreSamples.answer "{price_usd: 120 USD}"
              [("price_usd", VStr "120 USD")] eq_refl eq_refl eq_refl)
    as (out & Hrun & _).
  exists out. split; [exact Hrun|].
  vm_compute in Hrun. injection Hrun as <-. by split.
Defined.

Lemma request_body_failure_witness :
  _make_api_request (λ _, Raise (ExternalError "ConnectionError"))
    MoreSamples.knows_answer "p" (mkClient new_stats [])
  = (Raise (KeyError "api"), mkClient new_stats ["p"; "p"; "p"],
     [1%Q; (1 * 2)%Q]).
Proof.
  destruct (request_body_failure (λ _, Raise (ExternalError "ConnectionError"))
              MoreSamples.knows_answer "p" (mkClient new_stats []))
    as [[out H]|[_ H]].
  - by apply not_elem_of_dom.
  - by apply not_elem_of_dom.
  - by vm_compute in H.
  - exact H.
Defined.

End LMStudioFacts.

Module RunFacts.
Import Text Stats Exceptions Observe Run.

Section WithWorld.
Variable srv : Imap.Server.
Variable filters : Filters.
Variable format_date : Z → string.
Variable cfg : Excel.Config.
Variable normalize_nontext : Excel.Value → result string.
Variable re_match : list LMStudio.item → string → option string.
Variable api_content : string → result string.
Variable json_loads : string → option (list (string * Excel.Value)).
Variable create_prompt : string → string.
Variable exn_text : exn → string.

Local Abbreviation process_messages :=
  (process_messages srv cfg normalize_nontext re_match api_content json_loads
     create_prompt exn_text).
Local Abbreviation process_threads :=
  (process_threads srv cfg normalize_nontext re_match api_content json_loads
     create_prompt exn_text).
Local Abbreviation process_emails :=
  (process_emails srv filters format_date cfg normalize_nontext re_match
     api_content json_loads create_prompt exn_text).
Local Abbreviation get_email_threads :=
  (get_email_threads srv filters format_date).

Lemma after_run_0 st n :
  errors st !! "processing" = Some n → after_run st n 0 0 = st.
Proof.
  intros H. unfold after_run. simpl.
  rewrite !Z.add_0_r, insert_id by done. by destruct st.
Qed.

Lemma after_run_compose st n c1 f1 c2 f2 :
  after_run (after_run st n c1 f1) (n + Z.of_nat f1) c2 f2
  = after_run st n (c1 + c2) (f1 + f2).
Proof.
  unfold after_run. simpl. rewrite insert_insert_eq.
  f_equal; [lia|]. f_equal. lia.
Qed.

Lemma search_succeeds criteria h ids :
  Imap.conn h = true → Imap.srv_search srv criteria = Ok ids →
  Imap.search srv criteria h = (Ok (Some ids), h, []).
Proof.
  intros Hc Hs. unfold Imap.search, Retry.retry_with_backoff, Retry.wrapper.
  change (seqZ 0 3) with [0; 1; 2]%Z. cbn [Retry.wrapper_loop].
  unfold Imap.search_body, Imap.ensure_connected. by rewrite Hc, Hs.
Qed.

Lemma search_fails criteria h e :
  Imap.conn h = true → "imap_search" ∉ dom (errors (Imap.stats h)) →
  Imap.srv_search srv criteria = Raise e →
  Imap.search srv criteria h
  = (Raise (KeyError "imap_search"), h, [1%Q; (1 * 2)%Q]).
Proof.
  intros Hc Hkey Hs. destruct h as [c st]. simpl in *. subst c.
  assert (Imap.search_body srv criteria (Imap.mkHandler true st)
          = (Raise (KeyError "imap_search"), Imap.mkHandler true st)) as Hbody.
  { unfold Imap.search_body, Imap.ensure_connected. simpl. rewrite Hs. simpl.
    by rewrite (StatsFacts.count_and_reraise_missing _ _ _ Hkey). }
  unfold Imap.search, Retry.retry_with_backoff, Retry.wrapper.
  change (seqZ 0 3) with [0; 1; 2]%Z. simpl. by rewrite !Hbody.
Qed.

Lemma process_messages_pending messages thread a :
  errors (stats a) !! "analysis" = None →
  process_messages messages thread a
  = if existsb (λ m, negb (Imap.processed m)) messages
    then (Raise (KeyError "analysis"),
          mkApp (conn a) (counted_call (stats a)) (df a) (modified a)
                (posted a) (slept a))
    else (Ok (), a).
Proof.
  intros Hkey. induction messages as [|m messages IH]; [done|].
  cbn [Run.process_messages existsb].
  destruct (Imap.processed m); simpl; [exact IH|].
  rewrite (LMStudioFacts.analyze_email_uncounted re_match api_content
             json_loads create_prompt exn_text (Imap.body m) (client a) Hkey).
  unfold with_client, counted_call. simpl. by rewrite app_nil_r.
Qed.

Lemma process_threads_pending threads :
  ∀ a n,
    errors (stats a) !! "analysis" = None →
    errors (stats a) !! "processing" = Some n →
    process_threads threads a
    = (Ok (),
       mkApp (conn a)
         (after_run (stats a) n (pending_count threads) (pending_count threads))
         (df a) (modified a) (posted a) (slept a)).
Proof.
  induction threads as [|t threads IH]; intros a n Hkey Hn.
  - cbn [Run.process_threads]. unfold pending_count. simpl.
    rewrite after_run_0 by done. by destruct a.
  - cbn [Run.process_threads]. rewrite process_messages_pending by done.
    unfold pending_count.
    destruct (existsb (λ m, negb (Imap.processed m)) (Imap.messages t)) eqn:E.
    + rewrite filter_cons_True by exact E. cbn [length stats].
      unfold errors_incr. cbn [errors counted_call]. rewrite Hn.
      rewrite (IH _ (n + 1)%Z); cbn [stats errors set_errors conn df modified
                                       posted slept].
      * f_equal. f_equal.
        change (set_errors (counted_call (stats a))
                  (<["processing":=(n + 1)%Z]> (errors (stats a))))
          with (after_run (stats a) n 1 1).
        change (n + 1)%Z with (n + Z.of_nat 1)%Z.
        by rewrite after_run_compose.
      * by rewrite lookup_insert_ne.
      * by rewrite lookup_insert_eq.
    + rewrite filter_cons_False by (unfold pending; by rewrite E).
      by apply IH.
Qed.

Lemma pending_all ths :
  Forall Imap.thread_ok ths →
  Forall (λ m, Imap.processed m = false) (concat (Imap.messages <$> ths)) →
  pending_count ths = length ths.
Proof.
  unfold pending_count.
  induction ths as [|t ths IH]; intros Hok Hall; [done|].
  apply Forall_cons in Hok as [[(m & ms & Hm & _) _] Hok].
  rewrite fmap_cons in Hall. cbn [concat] in Hall.
  apply Forall_app in Hall as [Ht Hall].
  rewrite filter_cons_True.
  - cbn [length]. f_equal. by apply IH.
  - unfold pending. rewrite Hm in *. apply Forall_inv in Ht.
    cbn [existsb]. by rewrite Ht.
Qed.

(** A run never touches the table.  Whatever the mailbox holds, once the
    search has answered, the threads are those that the assembler makes
    of the messages found; every one of them that has a message to
    analyse costs one analysis call and one error counted under
    ['processing'] (the analysis raises [KeyError] for the key
    ['analysis'] before any request is sent), every message that cannot
    be fetched costs one more error, and [process_emails] returns
    normally with the table, its modified flag and the list of posted
    prompts as they were.  Fetched messages are never marked processed,
    so that every thread is counted. *)
Theorem process_emails_never_updates a ids n :
  dom (errors (stats a)) = dom (errors new_stats) →
  errors (stats a) !! "processing" = Some n →
  conn a = true →
  Imap.srv_search srv (build_query filters format_date) = Ok ids →
  ∃ threads,
    (Imap.assemble_threads srv ids (handler a)).1 = Ok threads
    ∧ concat (Imap.messages <$> threads) = fetched srv ids
    ∧ (Forall (λ m, Imap.processed m = false) (fetched srv ids) →
       pending_count threads = length threads)
    ∧ process_emails a
      = (Ok (),
         mkApp true
           (after_run (stats a) n (pending_count threads)
              (fetch_failures srv ids + pending_count threads))
           (df a) (modified a) (posted a) (slept a)).
Proof.
  intros Hdom Hn Hconn Hsearch.
  destruct a as [c st d md p sl]. cbn [conn stats df modified posted slept] in *.
  subst c.
  assert ("imap_fetch" ∉ dom (errors st)) as Hfetch
    by (rewrite Hdom; by apply not_elem_of_dom).
  assert (errors st !! "analysis" = None) as Hana
    by (apply not_elem_of_dom; rewrite Hdom; by apply not_elem_of_dom).
  pose proof (ImapMore.threads_loop_skips_failed srv ids [] None
                (Imap.mkHandler true st) n Hfetch Hn) as Hloop.
  cbn [Imap.conn Imap.stats] in Hloop.
  pose proof (ImapFacts.runs_of_place_all (fetched srv ids) [] _
                ImapFacts.runs_of_start) as (Hcat & Hok & _).
  set (placed := Imap.place_all (fetched srv ids) ([], None)) in *.
  exists (placed.1 ++ Imap.open_thread placed.2).
  split.
  { unfold handler, Imap.assemble_threads. cbn [conn stats].
    rewrite Hloop. fold placed.
    destruct placed as [threads [cur|]]; cbn [fst snd Imap.open_thread];
      [done|by rewrite app_nil_r]. }
  split; [exact Hcat|].
  split.
  { intros Hall. apply pending_all; [exact Hok|].
    cbn [app] in Hcat. by rewrite Hcat. }
  unfold process_emails, Run.get_email_threads, Imap.ensure_connected, handler.
  cbn [conn stats Imap.conn].
  rewrite (search_succeeds _ (Imap.mkHandler true st) ids eq_refl Hsearch).
  unfold Imap.assemble_threads. rewrite Hloop.
  assert (∀ ths,
    process_threads ths
      (with_handler (mkApp true st d md p sl)
         (Imap.mkHandler true
            (set_errors st
               (<["processing" := (n + Z.of_nat (fetch_failures srv ids))%Z]>
                  (errors st)))) [])
    = (Ok (),
       mkApp true
         (after_run st n (pending_count ths)
            (fetch_failures srv ids + pending_count ths))
         d md p sl)) as Hthreads.
  { intros ths.
    rewrite (process_threads_pending ths _
               (n + Z.of_nat (fetch_failures srv ids))%Z).
    - unfold with_handler. cbn [conn stats df modified posted slept
                                  Imap.conn Imap.stats].
      rewrite app_nil_r. f_equal. f_equal.
      unfold after_run, set_errors. simpl.
      rewrite insert_insert_eq. f_equal. f_equal. lia.
    - unfold with_handler. simpl. by rewrite lookup_insert_ne.
    - unfold with_handler. simpl. by rewrite lookup_insert_eq. }
  destruct placed as [threads [cur|]]; cbn [fst snd Imap.open_thread].
  - by rewrite Hthreads.
  - rewrite app_nil_r. by rewrite Hthreads.
Qed.

(** When the search of the mailbox fails, [process_emails] raises, though
    not the error of the server: after the three tries of the search and
    the sleeps of 1 and 2 seconds it is [KeyError] for the key
    ['imap_threads'] that reaches it and that it raises again, having
    counted one error under ['processing']; the table is untouched. *)
Theorem process_emails_search_fails a e n :
  dom (errors (stats a)) = dom (errors new_stats) →
  errors (stats a) !! "processing" = Some n →
  conn a = true →
  Imap.srv_search srv (build_query filters format_date) = Raise e →
  process_emails a
  = (Raise (KeyError "imap_threads"),
     mkApp true (after_run (stats a) n 0 1) (df a) (modified a) (posted a)
           (slept a ++ [1%Q; (1 * 2)%Q])).
Proof.
  intros Hdom Hn Hconn Hsearch.
  destruct a as [c st d md p sl]. cbn [conn stats df modified posted slept] in *.
  subst c.
  assert ("imap_search" ∉ dom (errors st)) as Hs
    by (rewrite Hdom; by apply not_elem_of_dom).
  assert ("imap_threads" ∉ dom (errors st)) as Ht
    by (rewrite Hdom; by apply not_elem_of_dom).
  unfold process_emails, Run.get_email_threads, Imap.ensure_connected, handler.
  cbn [conn stats Imap.conn].
  rewrite (search_fails _ (Imap.mkHandler true st) e eq_refl Hs Hsearch).
  cbn [Imap.stats Imap.conn].
  rewrite (StatsFacts.count_and_reraise_missing _ _ _ Ht).
  unfold with_handler. cbn [stats conn df modified posted slept
                              Imap.conn Imap.stats].
  unfold count_and_reraise, errors_incr. rewrite Hn.
  unfold after_run, set_errors. simpl. by rewrite Z.add_0_r.
Qed.

End WithWorld.

Lemma process_emails_never_updates_witness :
  ∃ threads,
    (Imap.assemble_threads Samples.offers_server ["1"; "2"; "3"; "4"]
       (Imap.mkHandler true new_stats)).1 = Ok threads
    ∧ concat (Imap.messages <$> threads) = Samples.offers
    ∧ (Forall (λ m, Imap.processed m = false) Samples.offers →
       pending_count threads = length threads)
    ∧ process_emails Samples.offers_server MoreSamples.no_filters
        MoreSamples.today Samples.sheet_cfg Samples.nontext_fails
        MoreSamples.no_match (λ _, Ok MoreSamples.answer)
        MoreSamples.knows_answer MoreSamples.echo_prompt MoreSamples.class_name
        MoreSamples.fresh_run
      = (Ok (),
         mkApp true
           (after_run new_stats 0 (pending_count threads)
              (0 + pending_count threads))
           (Some Samples.sheet) false [] []).
Proof.
  exact (process_emails_never_updates Samples.offers_server
           MoreSamples.no_filters MoreSamples.today Samples.sheet_cfg
           Samples.nontext_fails MoreSamples.no_match
           (λ _, Ok MoreSamples.answer) MoreSamples.knows_answer
           MoreSamples.echo_prompt MoreSamples.class_name MoreSamples.fresh_run
           ["1"; "2"; "3"; "4"] 0 eq_refl eq_refl eq_refl eq_refl).
Defined.

Lemma process_emails_search_fails_witness :
  process_emails Samples.down MoreSamples.no_filters
    MoreSamples.today Samples.sheet_cfg Samples.nontext_fails
    MoreSamples.no_match (λ _, Ok MoreSamples.answer)
    MoreSamples.knows_answer MoreSamples.echo_prompt MoreSamples.class_name
    MoreSamples.fresh_run
  = (Raise (KeyError "imap_threads"),
     mkApp true (after_run new_stats 0 0 1) (Some Samples.sheet) false []
           [1%Q; (1 * 2)%Q]).
Proof.
  exact (process_emails_search_fails Samples.down MoreSamples.no_filters
           MoreSamples.today Samples.sheet_cfg Samples.nontext_fails
           MoreSamples.no_match (λ _, Ok MoreSamples.answer)
           MoreSamples.knows_answer MoreSamples.echo_prompt
           MoreSamples.class_name MoreSamples.fresh_run
           (ExternalError "search") 0 eq_refl eq_refl eq_refl eq_refl).
Defined.

End RunFacts.
